(** * S_Evidence_BN_Oracle: the orchestrator scripts, embedded and verified

    The development follows the Python sources under [orchestrator/]:

    - [bn_from_chain.py]          the loader of priors and CPTs,
    - [dynamic_claim_flow.py]     evidence folding and the commit of a posterior,
    - [claim_lifecycle_demo.py]   the staged update of one claim,
    - [run_inference_and_log.py]  the single-shot command-line driver.

    Python [int] is [Z]; Python [float] is the kernel's binary64 [float], so
    that products, quotients and [round] are the IEEE operations the
    interpreter performs; a [dict] is a [gmap]; an exception is a value of
    [exn] carried by [result].  The contracts behind web3 are collaborators:
    they appear as the interface [Chain], and every call made through web3 is
    recorded, with its answer, in a trace. *)

From Stdlib Require Import ZArith QArith Qabs Floats Lia Lqa.
From stdpp Require Import gmap strings list fin_maps.

Local Open Scope Z_scope.

(** ** Exceptions and results *)

(** The exceptions of the model: those the interpreter or web3 raise in the
    modelled code, followed by the error kinds of the specification's
    taxonomy, which the statements below need to name. *)
Inductive exn : Type :=
  | ExternalStoreError      (* a web3 call or transaction raised *)
  | ValueError
  | OverflowError
  | TypeError
  | IndexError
  | SystemExit              (* argparse rejecting the command line *)
  | UnknownVariableError
  | DegenerateEvidenceError
  | ParameterRangeError
  | TopologyMismatchError
  | CommitVerificationError.

Inductive result (A : Type) : Type :=
  | Ok (a : A)
  | Raise (e : exn).
Arguments Ok {A} a.
Arguments Raise {A} e.

Definition is_ok {A} (r : result A) : bool :=
  match r with Ok _ => true | Raise _ => false end.

(** ** Numbers *)

Module Numeric.

(** [SCALE = 1_000_000], the constant every script repeats. *)
Definition SCALE : Z := 1000000.

(** [SCALE] as the float the interpreter converts it to in [p * SCALE]. *)
Definition SCALE_float : float := 1000000%float.

Definition signed (s : bool) (m : positive) : Z :=
  if s then Zneg m else Zpos m.

(** The integer nearest to [num / den], a tie going to the even neighbour. *)
Definition round_half_even (num : Z) (den : positive) : Z :=
  let q := num / Zpos den in
  let r := num mod Zpos den in
  match 2 * r ?= Zpos den with
  | Lt => q
  | Gt => q + 1
  | Eq => if Z.even q then q else q + 1
  end.

(** The integer nearest to [num / den], a tie going away from zero. *)
Definition round_half_away (num : Z) (den : positive) : Z :=
  Z.sgn num * ((2 * Z.abs num + Zpos den) / (2 * Zpos den)).

(** The builtin [round(x)] on a float, with no [ndigits]: an [int], the
    nearest integer with ties to even; [int(...)] of it is the identity.
    NaN raises [ValueError], an infinity raises [OverflowError]. *)
Definition py_round (x : float) : result Z :=
  match Prim2SF x with
  | S754_nan => Raise ValueError
  | S754_infinity _ => Raise OverflowError
  | S754_zero _ => Ok 0
  | S754_finite s m e =>
      Ok match e with
         | Zneg k => round_half_even (signed s m) (2 ^ k)%positive
         | _ => signed s m * 2 ^ e
         end
  end.

(** [int(round(float(p) * SCALE))]: the expression of
    [_compute_and_commit_posterior], of both [main]s and of the grid. *)
Definition scale_posterior (p : float) : result Z :=
  py_round (p * SCALE_float)%float.

(** The exact value of a decoded float, as a rational. *)
Definition SF2Q (x : spec_float) : Q :=
  match x with
  | S754_finite s m e =>
      match e with
      | Zneg k => signed s m # (2 ^ k)%positive
      | _ => inject_Z (signed s m * 2 ^ e)
      end
  | _ => 0%Q
  end.

Definition float_value (x : float) : Q := SF2Q (Prim2SF x).

(** [n] is a nearest integer of [q], and the even one at a tie. *)
Definition nearest_even (n : Z) (q : Q) : Prop :=
  (Qabs (inject_Z n - q) <= 1 # 2)%Q /\
  (Qabs (inject_Z n - q) == 1 # 2 -> Z.even n = true)%Q.

(** What the specification asks of the conversion: [round(p * SCALE)] with
    ties away from zero, clamped into [[0, SCALE]]. *)
Definition clamp (z : Z) : Z := Z.max 0 (Z.min SCALE z).

Definition round_away_float (x : float) : Z :=
  match Prim2SF x with
  | S754_finite s m e =>
      match e with
      | Zneg k => round_half_away (signed s m) (2 ^ k)%positive
      | _ => signed s m * 2 ^ e
      end
  | _ => 0
  end.

Definition spec_fixed_point (p : float) : Z :=
  clamp (round_away_float (p * SCALE_float)%float).

(** [scaled / SCALE] on an [int]: true division, the correctly rounded
    quotient, and [OverflowError] when that quotient exceeds the largest
    double (it rounds to [2^1024] from [2^1024 - 2^970] on). *)
Definition Z2SF (z : Z) : spec_float :=
  match z with
  | Z0 => S754_zero false
  | Zpos p => S754_finite false p 0
  | Zneg p => S754_finite true p 0
  end.

Definition true_quotient (scaled : Z) : float :=
  SF2Prim (SFdiv prec emax (Z2SF scaled) (Z2SF SCALE)).

Definition descale (scaled : Z) : result float :=
  if SCALE * (2 ^ 1024 - 2 ^ 970) <=? Z.abs scaled
  then Raise OverflowError
  else Ok (true_quotient scaled).

(** [0 <= x <= 1] on floats. *)
Definition in_unit_interval (x : float) : bool :=
  ((0 <=? x) && (x <=? 1))%float.

End Numeric.

Import Numeric.

(** ** The chain: the contracts behind web3 *)

(** A value of an ABI-decoded tuple. *)
Inductive pyval : Type :=
  | PyInt (z : Z)
  | PyBool (b : bool)
  | PyStr (s : string)      (* an address *)
  | PyBytes (s : string).   (* a bytes32 key *)

(** [v / SCALE] on a decoded value: a [bool] is an [int], a [str] or [bytes]
    operand raises [TypeError]. *)
Definition py_div_SCALE (v : pyval) : result float :=
  match v with
  | PyInt z => descale z
  | PyBool b => descale (if b then 1 else 0)
  | PyStr _ | PyBytes _ => Raise TypeError
  end.

(** A row of [EvidenceRegistry.evidences]:
    [(id, claimId, evidenceIndex, value, timestamp, reporter)], its integer
    fields decoded to [int], on which [int(...)] is the identity. *)
Record evidence_row : Type := {
  ev_id : Z;
  ev_claimId : Z;
  ev_evidenceIndex : Z;
  ev_value : Z;
  ev_timestamp : Z;
  ev_reporter : string
}.

(** The calls the scripts make through web3. A call answers [None] when web3
    raises (transport failure, revert); a transaction answers the next state
    of the chain once its receipt is there. [submitInference] takes its
    arguments as a list: the claim scripts pass [claimId, pph, ppr], the
    single-shot driver [gps, pc, pmd, pr, pph, ppr]. *)
Class Chain (W : Type) : Type := {
  priorPPH : W -> option Z;
  priorPPR : W -> option Z;
  getEvidenceTrueCPT : W -> Z -> Z -> Z -> option Z;
  getEvidenceIdsForClaim : W -> Z -> option (list Z);
  evidences : W -> Z -> option evidence_row;
  claims : W -> Z -> option (list pyval);
  lastEvidenceId : W -> option Z;
  getEvidence : W -> Z -> option (list pyval);
  submitInference : W -> list Z -> option W
}.

(** The posterior [{"PPH": ..., "PPR": ...}] that [bn.infer] returns. *)
Record posterior : Type := { PPH : float; PPR : float }.

(** What a run does that is visible from outside: its calls, its
    transactions and its uses of the inference engine, with their answers. *)
Inductive call : Type :=
  | c_priorPPH
  | c_priorPPR
  | c_getEvidenceTrueCPT (ev_idx pph ppr : Z)
  | c_getEvidenceIdsForClaim (claim_id : Z)
  | c_evidences (eid : Z)
  | c_claims (claim_id : Z)
  | c_lastEvidenceId
  | c_getEvidence (eid : Z)
  | tx_submitInference (args : list Z)
  | bn_infer (evidence : gmap string Z).

Inductive answer : Type :=
  | AInt (z : Z)
  | AIds (ids : list Z)
  | ARow (r : evidence_row)
  | ATuple (t : list pyval)
  | AReceipt
  | APosterior (p : posterior)
  | ARaised (e : exn).

Definition event : Type := call * answer.

Definition is_cpt_read (c : call) : bool :=
  match c with
  | c_priorPPH | c_priorPPR | c_getEvidenceTrueCPT _ _ _ => true
  | _ => false
  end.

Definition is_evidence_read (c : call) : bool :=
  match c with
  | c_getEvidenceIdsForClaim _ | c_evidences _ => true
  | _ => false
  end.

(** ** The monad of a script: chain state, trace, exceptions *)

Definition state (W : Type) : Type := W * list event.

Definition M (W A : Type) : Type := state W -> result A * state W.

Definition ret {W A} (a : A) : M W A := fun s => (Ok a, s).

Definition bind {W A B} (m : M W A) (k : A -> M W B) : M W B :=
  fun s =>
    match m s with
    | (Ok a, s') => k a s'
    | (Raise e, s') => (Raise e, s')
    end.

Definition lift {W A} (r : result A) : M W A := fun s => (r, s).

Notation "'let!' x ':=' m 'in' k" := (bind m (fun x => k))
  (at level 10, x name, m at level 200, k at level 200).

Section Script.

Context {W : Type} {chain : Chain W}.

(** A read-only call: the chain is unchanged, the trace grows by one. *)
Definition perform {A} (c : call) (f : W -> option A) (ans : A -> answer) : M W A :=
  fun '(w, tr) =>
    match f w with
    | Some a => (Ok a, (w, tr ++ [(c, ans a)]))
    | None => (Raise ExternalStoreError, (w, tr ++ [(c, ARaised ExternalStoreError)]))
    end.

(** [f(...).transact(...)] followed by [wait_for_transaction_receipt]. *)
Definition transact (c : call) (f : W -> option W) : M W unit :=
  fun '(w, tr) =>
    match f w with
    | Some w' => (Ok tt, (w', tr ++ [(c, AReceipt)]))
    | None => (Raise ExternalStoreError, (w, tr ++ [(c, ARaised ExternalStoreError)]))
    end.

(** [bn.infer(evidence)]: pure, but recorded. *)
Definition infer_with (bn : gmap string Z -> result posterior)
    (evidence : gmap string Z) : M W posterior :=
  fun '(w, tr) =>
    match bn evidence with
    | Ok p => (Ok p, (w, tr ++ [(bn_infer evidence, APosterior p)]))
    | Raise e => (Raise e, (w, tr ++ [(bn_infer evidence, ARaised e)]))
    end.

End Script.

(** A [for] loop that threads the value it updates. *)
Fixpoint for_each {W A B} (l : list A) (body : B -> A -> M W B) (b : B) : M W B :=
  match l with
  | [] => ret b
  | a :: l' => let! b' := body b a in for_each l' body b'
  end.

(** ** bn_from_chain.py *)

(** The inference engine, [offChain.bn_oracle.bn_oracle.BNOracle]: the class
    is imported by the scripts and its constructor and [infer] are taken as
    one function of the priors, the CPTs and the evidence. *)
Definition BNOracle_class : Type :=
  gmap string float -> gmap string (gmap (Z * Z) float) ->
  gmap string Z -> result posterior.

Module Loader.

Section Loader.

Context {W : Type} {chain : Chain W}.

(** [idx_to_name = {0: "GPS", 1: "PC", 2: "PMD", 3: "PR"}], in the order
    [.items()] walks it. *)
Definition idx_to_name : list (Z * string) :=
  [(0, "GPS"); (1, "PC"); (2, "PMD"); (3, "PR")].

(** The two innermost [for] loops on one table: four reads, four cells. *)
Definition fill_table (ev_idx : Z) (table : gmap (Z * Z) float)
    : M W (gmap (Z * Z) float) :=
  for_each [0; 1] (fun table pph =>
    for_each [0; 1] (fun table ppr =>
      let! scaled :=
        perform (c_getEvidenceTrueCPT ev_idx pph ppr)
                (fun w => getEvidenceTrueCPT w ev_idx pph ppr) AInt in
      let! v := lift (descale scaled) in
      ret (<[(pph, ppr) := v]> table)) table) table.

(** [load_priors_and_cpts_from_chain(w3)], from the first read on; finding
    the artifact and the deployed address comes before and is what gives the
    script its [Chain]. [table = cpts[name]] aliases the table held by
    [cpts], so that the filled table is the one [cpts] holds at the end. *)
Definition load_priors_and_cpts_from_chain
    : M W (gmap string float * gmap string (gmap (Z * Z) float)) :=
  let! raw_pph := perform c_priorPPH priorPPH AInt in
  let! prior_pph := lift (descale raw_pph) in
  let! raw_ppr := perform c_priorPPR priorPPR AInt in
  let! prior_ppr := lift (descale raw_ppr) in
  let priors : gmap string float :=
    <["PPR" := prior_ppr]> (<["PPH" := prior_pph]> ∅) in
  let cpts0 : gmap string (gmap (Z * Z) float) :=
    list_to_map (map (fun '(_, name) => (name, ∅)) idx_to_name) in
  let! cpts :=
    for_each idx_to_name (fun cpts '(ev_idx, name) =>
      let table := cpts !!! name in
      let! table' := fill_table ev_idx table in
      ret (<[name := table']> cpts)) cpts0 in
  ret (priors, cpts).

(** [build_bn_from_chain(w3)]. *)
Definition build_bn_from_chain (BNOracle : BNOracle_class)
    : M W ((gmap string Z -> result posterior) *
           gmap string float * gmap string (gmap (Z * Z) float)) :=
  let! pc := load_priors_and_cpts_from_chain in
  let bn := BNOracle (fst pc) (snd pc) in
  ret (bn, fst pc, snd pc).

End Loader.

End Loader.

(** ** dynamic_claim_flow.py *)

Module DynamicFlow.

Definition EVIDENCE_NAMES : list string := ["GPS"; "PC"; "PMD"; "PR"].

(** [l[i]] on a Python list: a negative index counts from the end, an index
    out of range raises [IndexError]. *)
Definition py_index {A} (l : list A) (i : Z) : result A :=
  let n := Z.of_nat (length l) in
  let j := if i <? 0 then i + n else i in
  if (0 <=? j) && (j <? n)
  then match l !! Z.to_nat j with
       | Some x => Ok x
       | None => Raise IndexError
       end
  else Raise IndexError.

(** The body of the loop of [_fetch_evidence_for_claim] on one row. *)
Definition fold_piece (evidence_values : gmap string Z) (ev : evidence_row)
    : result (gmap string Z) :=
  let idx := ev_evidenceIndex ev in
  if idx <? Z.of_nat (length EVIDENCE_NAMES)
  then match py_index EVIDENCE_NAMES idx with
       | Ok name => Ok (<[name := ev_value ev]> evidence_values)
       | Raise e => Raise e
       end
  else Ok evidence_values.

(** The loop on rows already fetched. *)
Fixpoint fold_pieces (evidence_values : gmap string Z) (rows : list evidence_row)
    : result (gmap string Z) :=
  match rows with
  | [] => Ok evidence_values
  | ev :: rows' =>
      match fold_piece evidence_values ev with
      | Ok evidence_values' => fold_pieces evidence_values' rows'
      | Raise e => Raise e
      end
  end.

(** The 8-way unpacking of the claim row, of which the two posterior fields
    are used. *)
Definition unpack_claim_row (claim_row : list pyval) : result (pyval * pyval) :=
  match claim_row with
  | [_cid; _physician; _opened_at; _updated_at; _bn_id; posteriorPPH; posteriorPPR; _closed] =>
      Ok (posteriorPPH, posteriorPPR)
  | _ => Raise ValueError
  end.

Section DynamicFlow.

Context {W : Type} {chain : Chain W}.

(** [_fetch_evidence_for_claim(evidence_registry, claim_id)]. *)
Definition _fetch_evidence_for_claim (claim_id : Z) : M W (gmap string Z) :=
  let! ids :=
    perform (c_getEvidenceIdsForClaim claim_id)
            (fun w => getEvidenceIdsForClaim w claim_id) AIds in
  for_each ids (fun evidence_values eid =>
    let! ev := perform (c_evidences eid) (fun w => evidences w eid) ARow in
    lift (fold_piece evidence_values ev)) ∅.

(** [_compute_and_commit_posterior(...)]; the [print]s are left out, but not
    the two quotients by [SCALE] that the last one formats. *)
Definition _compute_and_commit_posterior
    (bn : gmap string Z -> result posterior) (claim_id : Z) : M W unit :=
  let! evidence := _fetch_evidence_for_claim claim_id in
  if bool_decide (evidence = ∅) then ret tt
  else
    let! posterior := infer_with bn evidence in
    let! scaled_pph := lift (scale_posterior (PPH posterior)) in
    let! scaled_ppr := lift (scale_posterior (PPR posterior)) in
    let! _ :=
      transact (tx_submitInference [claim_id; scaled_pph; scaled_ppr])
               (fun w => submitInference w [claim_id; scaled_pph; scaled_ppr]) in
    let! claim_row := perform (c_claims claim_id) (fun w => claims w claim_id) ATuple in
    let! fields := lift (unpack_claim_row claim_row) in
    let! _ := lift (py_div_SCALE (fst fields)) in
    let! _ := lift (py_div_SCALE (snd fields)) in
    ret tt.

End DynamicFlow.

End DynamicFlow.

(** ** claim_lifecycle_demo.py *)

Module Lifecycle.

Import DynamicFlow.

(** What a stage appends to [rows], as far as the posterior goes. *)
Record stage_row : Type := {
  row_claim_id : Z;
  posterior_pph : float;
  posterior_ppr : float;
  onchain_pph : float;
  onchain_ppr : float
}.


Section Lifecycle.

Context {W : Type} {chain : Chain W}.

(** The body of [for idx, stage in enumerate(stages)] in [main]; gas, block
    and timestamp of the receipt are logging only and left out. *)
Definition stage_body (bn : gmap string Z -> result posterior) (claim_id : Z)
    (evidence : gmap string Z) : M W stage_row :=
  let! posterior := infer_with bn evidence in
  let pph := PPH posterior in
  let ppr := PPR posterior in
  let! scaled_pph := lift (scale_posterior pph) in
  let! scaled_ppr := lift (scale_posterior ppr) in
  let! _ :=
    transact (tx_submitInference [claim_id; scaled_pph; scaled_ppr])
             (fun w => submitInference w [claim_id; scaled_pph; scaled_ppr]) in
  let! claim_tuple := perform (c_claims claim_id) (fun w => claims w claim_id) ATuple in
  let! c_pph := lift (py_index claim_tuple 2) in
  let! c_ppr := lift (py_index claim_tuple 3) in
  let! onchain_pph := lift (py_div_SCALE c_pph) in
  let! onchain_ppr := lift (py_div_SCALE c_ppr) in
  ret {| row_claim_id := claim_id;
         posterior_pph := pph; posterior_ppr := ppr;
         onchain_pph := onchain_pph; onchain_ppr := onchain_ppr |}.


End Lifecycle.

End Lifecycle.

(** ** run_inference_and_log.py *)

Module SingleShot.

Import Loader DynamicFlow.

(** The [Namespace] that [parse_args] returns. *)
Record Namespace : Type := { gps : Z; pc : Z; pmd : Z; pr : Z }.

(** [choices=[0, 1]] and [default=0], the same for the four options. *)
Definition choices : list Z := [0; 1].

Definition defaults : Namespace := {| gps := 0; pc := 0; pmd := 0; pr := 0 |}.

(** One option of the command line, already split into its flag and its
    [type=int] value: the value is stored in the flag's destination, a later
    occurrence replacing an earlier one; a flag the parser does not know, or
    a value outside [choices], ends the run with [SystemExit]. *)
Definition store (ns : Namespace) (opt : string * Z) : result Namespace :=
  let '(flag, v) := opt in
  if bool_decide (v ∈ choices) then
    if String.eqb flag "--gps" then Ok {| gps := v; pc := pc ns; pmd := pmd ns; pr := pr ns |}
    else if String.eqb flag "--pc" then Ok {| gps := gps ns; pc := v; pmd := pmd ns; pr := pr ns |}
    else if String.eqb flag "--pmd" then Ok {| gps := gps ns; pc := pc ns; pmd := v; pr := pr ns |}
    else if String.eqb flag "--pr" then Ok {| gps := gps ns; pc := pc ns; pmd := pmd ns; pr := v |}
    else Raise SystemExit
  else Raise SystemExit.

Fixpoint parse_from (ns : Namespace) (argv : list (string * Z)) : result Namespace :=
  match argv with
  | [] => Ok ns
  | opt :: argv' =>
      match store ns opt with
      | Ok ns' => parse_from ns' argv'
      | Raise e => Raise e
      end
  end.

(** [parse_args()]. *)
Definition parse_args (argv : list (string * Z)) : result Namespace :=
  parse_from defaults argv.

(** [evidence = {"GPS": args.gps, "PC": args.pc, "PMD": args.pmd, "PR": args.pr}]. *)
Definition evidence_of (args : Namespace) : gmap string Z :=
  <["PR" := pr args]> (<["PMD" := pmd args]> (<["PC" := pc args]> (<["GPS" := gps args]> ∅))).

(** The 6-way unpacking of what [getEvidence] returns, of which the two
    stored posteriors are used. *)
Definition unpack_evidence (t : list pyval) : result (pyval * pyval) :=
  match t with
  | [_gps; _pc; _pmd; _pr; stored_pph; stored_ppr] => Ok (stored_pph, stored_ppr)
  | _ => Raise ValueError
  end.

Section SingleShot.

Context {W : Type} {chain : Chain W}.

(** [main()], from [parse_args] on; the [print]s are left out, but not the
    two quotients by [SCALE] that the last but one formats. *)
Definition main (BNOracle : BNOracle_class) (argv : list (string * Z)) : M W unit :=
  let! args := lift (parse_args argv) in
  let! built := build_bn_from_chain BNOracle in
  let bn := fst (fst built) in
  let evidence := evidence_of args in
  let! posterior := infer_with bn evidence in
  let! scaled_pph := lift (scale_posterior (PPH posterior)) in
  let! scaled_ppr := lift (scale_posterior (PPR posterior)) in
  let submitted := [gps args; pc args; pmd args; pr args; scaled_pph; scaled_ppr] in
  let! _ := transact (tx_submitInference submitted) (fun w => submitInference w submitted) in
  let! evidence_id := perform c_lastEvidenceId lastEvidenceId AInt in
  let! stored := perform (c_getEvidence evidence_id) (fun w => getEvidence w evidence_id) ATuple in
  let! fields := lift (unpack_evidence stored) in
  let! _ := lift (py_div_SCALE (fst fields)) in
  let! _ := lift (py_div_SCALE (snd fields)) in
  ret tt.

End SingleShot.

End SingleShot.

(** ** The inference engine *)

Module Engine.

Definition vocabulary : list string := ["GPS"; "PC"; "PMD"; "PR"].

(** [P(X = x)] from [P(X = 1)], for [x] 1 or 0; the spec gives an observed
    value no other reading, and any other value is read as 0. *)
Definition at_value (p1 : float) (x : Z) : float :=
  if x =? 1 then p1 else (1 - p1)%float.

Definition priorJoint (priors : gmap string float) (s : Z * Z) : float :=
  (at_value (default 0%float (priors !! "PPH")) (fst s) *
   at_value (default 0%float (priors !! "PPR")) (snd s))%float.

Definition cpt_cell (cpts : gmap string (gmap (Z * Z) float)) (name : string) (s : Z * Z) : float :=
  default 0%float (cpts !! name ≫= fun table => table !! s).

(** The unnormalized weight of a joint hidden state: its prior times one
    factor for every evidence variable present. *)
Definition weight (priors : gmap string float) (cpts : gmap string (gmap (Z * Z) float))
    (evidence : gmap string Z) (s : Z * Z) : float :=
  fold_left (fun acc name =>
               match evidence !! name with
               | Some v => (acc * at_value (cpt_cell cpts name s) v)%float
               | None => acc
               end)
            vocabulary (priorJoint priors s).

(** Modelled from the spec: the inference engine [BNOracle] of
    [offChain/bn_oracle/bn_oracle.py], which the scripts import and which is
    not among the sources. Exact enumeration of the four joint hidden states
    (§4.2): weight, normalization, marginals; an evidence name outside the
    vocabulary is an [UnknownVariableError], a zero total a
    [DegenerateEvidenceError]. *)
Definition BNOracle : BNOracle_class :=
  fun priors cpts evidence =>
    if forallb (fun name => bool_decide (name ∈ vocabulary)) (map fst (map_to_list evidence))
    then
      let w00 := weight priors cpts evidence (0, 0) in
      let w01 := weight priors cpts evidence (0, 1) in
      let w10 := weight priors cpts evidence (1, 0) in
      let w11 := weight priors cpts evidence (1, 1) in
      let total := (w00 + w01 + w10 + w11)%float in
      if (total =? 0)%float then Raise DegenerateEvidenceError
      else Ok {| PPH := (w10 / total + w11 / total)%float;
                 PPR := (w01 / total + w11 / total)%float |}
    else Raise UnknownVariableError.

End Engine.

(** ** A concrete chain *)

Module Ledger.

(** The state of the contracts as far as the scripts see it. *)
Record ledger : Type := {
  store_priorPPH : Z;
  store_priorPPR : Z;
  store_cpt : Z -> Z -> Z -> Z;
  registry_rows : list evidence_row;
  claim_posteriors : gmap Z (Z * Z);
  logged : list (list Z)
}.

Definition set_posterior (cid a b : Z) (l : ledger) : ledger :=
  {| store_priorPPH := store_priorPPH l; store_priorPPR := store_priorPPR l;
     store_cpt := store_cpt l; registry_rows := registry_rows l;
     claim_posteriors := <[cid := (a, b)]> (claim_posteriors l);
     logged := logged l |}.

Definition log_inference (args : list Z) (l : ledger) : ledger :=
  {| store_priorPPH := store_priorPPH l; store_priorPPR := store_priorPPR l;
     store_cpt := store_cpt l; registry_rows := registry_rows l;
     claim_posteriors := claim_posteriors l;
     logged := logged l ++ [args] |}.

(** The claim row as [dynamic_claim_flow.py] reads it: eight fields, the
    posterior at positions 5 and 6. *)
Definition controller_row (cid : Z) (p : Z * Z) : list pyval :=
  [PyInt cid; PyStr "0xPhysician"; PyInt 0; PyInt 0; PyInt 0;
   PyInt (fst p); PyInt (snd p); PyBool false].


(** A chain over [ledger]: [row] lays a claim out, [applies] tells whether a
    submitted posterior reaches the claim (a store that drops the write, or
    whose write is overwritten at once, has [applies = false]). *)
Definition ledger_chain (row : Z -> Z * Z -> list pyval) (applies : bool) : Chain ledger :=
  {| priorPPH l := Some (store_priorPPH l);
     priorPPR l := Some (store_priorPPR l);
     getEvidenceTrueCPT l i pph ppr := Some (store_cpt l i pph ppr);
     getEvidenceIdsForClaim l cid :=
       Some (map ev_id (filter (fun r => ev_claimId r = cid) (registry_rows l)));
     evidences l eid := list_find (fun r => ev_id r = eid) (registry_rows l) ≫= fun ir => Some (snd ir);
     claims l cid := Some (row cid (default (0, 0) (claim_posteriors l !! cid)));
     lastEvidenceId l := Some (Z.of_nat (length (logged l)) - 1);
     getEvidence l eid := (logged l !! Z.to_nat eid) ≫= fun args => Some (map PyInt args);
     submitInference l args :=
       match args with
       | [cid; a; b] => Some (if applies then set_posterior cid a b l else l)
       | [_; _; _; _; _; _] => Some (log_inference args l)
       | _ => None
       end |}.

Definition controller_chain : Chain ledger := ledger_chain controller_row true.
Definition lossy_chain : Chain ledger := ledger_chain controller_row false.

Definition piece (id cid idx v : Z) : evidence_row :=
  {| ev_id := id; ev_claimId := cid; ev_evidenceIndex := idx; ev_value := v;
     ev_timestamp := 0; ev_reporter := "0xPhysician" |}.

(** A store where GPS and PC depend on PPH only, with cells of the form
    [k/64], and uniform priors. *)
Definition sample_cpt (i pph ppr : Z) : Z :=
  if i =? 0 then (if pph =? 1 then 15625 else 46875)
  else if i =? 1 then (if pph =? 1 then 78125 else 640625)
  else 500000.

Definition sample : ledger :=
  {| store_priorPPH := 500000; store_priorPPR := 500000;
     store_cpt := sample_cpt;
     registry_rows := [piece 0 7 0 1; piece 1 7 1 1];
     claim_posteriors := ∅;
     logged := [] |}.

(** The same store with a prior twice [SCALE]. *)
Definition corrupted : ledger :=
  {| store_priorPPH := 2000000; store_priorPPR := 500000;
     store_cpt := sample_cpt;
     registry_rows := [piece 0 7 0 1; piece 1 7 1 1];
     claim_posteriors := ∅;
     logged := [] |}.

End Ledger.

(** [run m w]: the script [m] started on the chain [w], nothing traced yet. *)
Definition run {W A} (m : M W A) (w : W) : result A * state W := m (w, []).

(** ** What a script may do: properties of its runs *)

Section Runs.

Context {W : Type} {chain : Chain W}.

(** Every event the script adds to the trace satisfies [P]. *)
Definition emits {A} (P : event -> Prop) (m : M W A) : Prop :=
  forall w tr r w' tr', m (w, tr) = (r, (w', tr')) ->
    exists ext, tr' = tr ++ ext /\ Forall P ext.

(** The script leaves the chain as it found it. *)
Definition read_only {A} (m : M W A) : Prop :=
  forall w tr r w' tr', m (w, tr) = (r, (w', tr')) -> w' = w.

(** Every exception the script ends with satisfies [E]. *)
Definition raises {A} (E : exn -> Prop) (m : M W A) : Prop :=
  forall s e s', m s = (Raise e, s') -> E e.

(** Every value the script returns satisfies [Q]. *)
Definition returns {A} (Q : A -> Prop) (m : M W A) : Prop :=
  forall s a s', m s = (Ok a, s') -> Q a.

End Runs.

(** The unsigned 256-bit integers of the ABI. *)
Definition uint256 (z : Z) : Prop := 0 <= z < 2 ^ 256.

(** ** What a loaded store looks like *)

Module LoaderSpec.

Import Loader.

Section LoaderSpec.

Context {W : Type} {chain : Chain W}.

(** The cell reads answer [cell], within the ABI's range. *)
Definition cells_answer (w : W) (cell : Z -> Z -> Z -> Z) : Prop :=
  forall i pph ppr, In i [0; 1; 2; 3] -> In pph [0; 1] -> In ppr [0; 1] ->
    getEvidenceTrueCPT w i pph ppr = Some (cell i pph ppr) /\ uint256 (cell i pph ppr).

(** The store answers the 18 reads of the fixed topology: the two priors
    with [a] and [b], the cells with [cell], all within the ABI's range. *)
Definition store_answers (w : W) (a b : Z) (cell : Z -> Z -> Z -> Z) : Prop :=
  (priorPPH w = Some a /\ uint256 a) /\
  (priorPPR w = Some b /\ uint256 b) /\
  cells_answer w cell.

End LoaderSpec.

(** The table of variable [i] once its four cells are written over [table]. *)
Definition table_of (cell : Z -> Z -> Z -> Z) (i : Z) (table : gmap (Z * Z) float)
    : gmap (Z * Z) float :=
  <[(1, 1) := true_quotient (cell i 1 1)]>
    (<[(1, 0) := true_quotient (cell i 1 0)]>
       (<[(0, 1) := true_quotient (cell i 0 1)]>
          (<[(0, 0) := true_quotient (cell i 0 0)]> table))).

Definition priors_of (a b : Z) : gmap string float :=
  <["PPR" := true_quotient b]> (<["PPH" := true_quotient a]> ∅).

Definition cpts_of (cell : Z -> Z -> Z -> Z) : gmap string (gmap (Z * Z) float) :=
  <["PR" := table_of cell 3 ∅]>
    (<["PMD" := table_of cell 2 ∅]>
       (<["PC" := table_of cell 1 ∅]>
          (<["GPS" := table_of cell 0 ∅]> ∅))).

(** The four reads of one table, in the order of the two loops. *)
Definition table_reads (cell : Z -> Z -> Z -> Z) (i : Z) : list event :=
  [(c_getEvidenceTrueCPT i 0 0, AInt (cell i 0 0));
   (c_getEvidenceTrueCPT i 0 1, AInt (cell i 0 1));
   (c_getEvidenceTrueCPT i 1 0, AInt (cell i 1 0));
   (c_getEvidenceTrueCPT i 1 1, AInt (cell i 1 1))].

(** The reads of a whole load: two priors, then four tables. *)
Definition reads_of (a b : Z) (cell : Z -> Z -> Z -> Z) : list event :=
  [(c_priorPPH, AInt a); (c_priorPPR, AInt b)] ++
  table_reads cell 0 ++ table_reads cell 1 ++ table_reads cell 2 ++ table_reads cell 3.

(** The exceptions a load can end with. *)
Definition loader_error (e : exn) : Prop :=
  e = ExternalStoreError \/ e = OverflowError.

End LoaderSpec.

(** ** What a fetched registry looks like *)

Module FetchSpec.

Import DynamicFlow.

(** The registry answers the list of ids of the claim and, id by id, the
    rows. *)
Definition registry_answers {W : Type} {chain : Chain W}
    (w : W) (claim_id : Z) (ids : list Z) (rows : list evidence_row) : Prop :=
  getEvidenceIdsForClaim w claim_id = Some ids /\
  Forall2 (fun eid r => evidences w eid = Some r) ids rows.

(** The reads of a whole fetch. *)
Definition fetch_reads (claim_id : Z) (ids : list Z) (rows : list evidence_row)
    : list event :=
  (c_getEvidenceIdsForClaim claim_id, AIds ids) ::
  zip_with (fun eid r => (c_evidences eid, ARow r)) ids rows.

(** The value of the last piece of [rows] that carries the index [idx]. *)
Definition last_value (idx : Z) (rows : list evidence_row) : option Z :=
  ev_value <$> last (filter (fun r => ev_evidenceIndex r = idx) rows).

(** The fixed vocabulary, as a set. *)
Definition vocabulary_set : gset string := {["GPS"; "PC"; "PMD"; "PR"]}.

End FetchSpec.

(** ** What the scripts expect of the claim store *)

Module StoreContract.

Section StoreContract.

Context {W : Type} {chain : Chain W}.

(** Once a submission for a claim is through, the row of the claim holds
    the submitted pair at the positions [pph_at] and [ppr_at], and has
    [width] fields. *)
Definition read_after_write (width pph_at ppr_at : nat) : Prop :=
  forall (w w' : W) claim_id a b,
    submitInference w [claim_id; a; b] = Some w' ->
    exists row, claims w' claim_id = Some row /\
                length row = width /\
                row !! pph_at = Some (PyInt a) /\
                row !! ppr_at = Some (PyInt b).

(** A claim is never locked: what was accepted once is accepted again. *)
Definition resubmission_allowed : Prop :=
  forall (w w' : W) args,
    submitInference w args = Some w' -> is_Some (submitInference w' args).

(** A submission leaves the evidence registry as it was. *)
Definition registry_untouched : Prop :=
  forall (w w' : W) args,
    submitInference w args = Some w' ->
    (forall claim_id, getEvidenceIdsForClaim w' claim_id = getEvidenceIdsForClaim w claim_id) /\
    (forall eid, evidences w' eid = evidences w eid).

End StoreContract.

(** The three events of a commit: inference, submission, read-back. *)
Definition commit_events (claim_id : Z) (evidence : gmap string Z) (p : posterior)
    (a b : Z) (row : list pyval) : list event :=
  [(bn_infer evidence, APosterior p);
   (tx_submitInference [claim_id; a; b], AReceipt);
   (c_claims claim_id, ATuple row)].

(** The exceptions a commit can end with besides those of the engine. *)
Definition commit_error (e : exn) : Prop :=
  e = ExternalStoreError \/ e = IndexError \/ e = ValueError \/
  e = OverflowError \/ e = TypeError.

End StoreContract.

(** ** Sample runs *)

Module Samples.

Import Ledger LoaderSpec.

(** The snapshot of claim 7 in [sample], the engine loaded from [sample] and
    the posterior it gives: [P(PPH | GPS=1, PC=1) = 5/128]. *)
Definition sample_evidence : gmap string Z := <["PC" := 1]> (<["GPS" := 1]> ∅).

Definition sample_bn : gmap string Z -> result posterior :=
  Engine.BNOracle (priors_of 500000 500000) (cpts_of sample_cpt).

Definition sample_posterior : posterior := {| PPH := 0.0390625; PPR := 0.5 |}.

Definition sample_rows : list evidence_row := [piece 0 7 0 1; piece 1 7 1 1].

(** A registry where GPS is reported twice for claim 7: 1, then 0. *)
Definition repeated_rows : list evidence_row :=
  [piece 0 7 0 1; piece 1 7 1 0; piece 2 7 0 0].

Definition repeated : ledger :=
  {| store_priorPPH := 500000; store_priorPPR := 500000;
     store_cpt := sample_cpt;
     registry_rows := repeated_rows;
     claim_posteriors := ∅;
     logged := [] |}.

(** A registry where a piece of index 4 follows a piece of index 0. *)
Definition drifted_rows : list evidence_row := [piece 0 7 0 1; piece 1 7 4 1].

Definition drifted : ledger :=
  {| store_priorPPH := 500000; store_priorPPR := 500000;
     store_cpt := sample_cpt;
     registry_rows := drifted_rows;
     claim_posteriors := ∅;
     logged := [] |}.

End Samples.

(** ** What a command line gives *)

Module DriverSpec.





End DriverSpec.

(** The script adds at most [n] events to the trace. *)
Definition at_most {W A} (n : nat) (m : M W A) : Prop :=
  forall w tr r w' tr', m (w, tr) = (r, (w', tr')) ->
    exists ext, tr' = tr ++ ext /\ (length ext <= n)%nat.


(** The event is a submission that went through. *)
Definition is_accepted_submission (ev : event) : bool :=
  match ev with
  | (tx_submitInference _, AReceipt) => true
  | _ => false
  end.



(** An option the parser knows, with a value among its choices. *)
Definition known_binary (opt : string * Z) : Prop :=
  fst opt ∈ ["--gps"; "--pc"; "--pmd"; "--pr"] /\ (snd opt = 0 \/ snd opt = 1).


(** ** fill_cpts.py *)

Module FillCpts.

(** The one transaction of the script: [CPTStore.setEvidenceCPT(evIndex, pph,
    ppr, scaled)], answering the next state of the chain once its receipt is
    there, or [None] when web3 raises. *)
Class CptWriter (W : Type) : Type := {
  setEvidenceCPT : W -> Z -> Z -> Z -> Z -> option W
}.

(** The exceptions of the script: the [KeyError] of [mapping[(pph, ppr)]],
    and those of the conversion and of the transaction. *)
Inductive fill_exn : Type :=
  | KeyError (key : Z * Z)
  | Builtin (e : exn).

Inductive outcome (A : Type) : Type :=
  | Done (a : A)
  | Failed (e : fill_exn).
Arguments Done {A} a.
Arguments Failed {A} e.

(** A script of [fill_cpts.py]: it threads the chain and ends with a value
    or an exception. *)
Definition F (W A : Type) : Type := W -> outcome A * W.

Definition fret {W A} (a : A) : F W A := fun w => (Done a, w).

Definition fbind {W A B} (m : F W A) (k : A -> F W B) : F W B :=
  fun w =>
    match m w with
    | (Done a, w') => k a w'
    | (Failed e, w') => (Failed e, w')
    end.

Fixpoint floop {W A B} (l : list A) (body : B -> A -> F W B) (b : B) : F W B :=
  match l with
  | [] => fret b
  | a :: l' => fbind (body b a) (fun b' => floop l' body b')
  end.

(** [enumerate(l)]. *)
Definition enumerate {A} (l : list A) : list (Z * A) :=
  imap (fun i a => (Z.of_nat i, a)) l.

(** The dict the script ships for each variable: 0.5 everywhere. *)
Definition neutral : gmap (Z * Z) float :=
  <[(1, 1) := 0.5%float]> (<[(1, 0) := 0.5%float]>
    (<[(0, 1) := 0.5%float]> (<[(0, 0) := 0.5%float]> ∅))).

Section FillCpts.

Context {W : Type} {writer : CptWriter W}.

(** The body of the innermost loop: look the probability up, scale it with
    [int(round(p_true * SCALE))], send it, count the transaction. *)
Definition fill_cell (ev_index : Z) (mapping : gmap (Z * Z) float)
    (tx_count : Z) (pph ppr : Z) : F W Z :=
  fun w =>
    match mapping !! (pph, ppr) with
    | None => (Failed (KeyError (pph, ppr)), w)
    | Some p_true =>
        match scale_posterior p_true with
        | Raise e => (Failed (Builtin e), w)
        | Ok scaled =>
            match setEvidenceCPT w ev_index pph ppr scaled with
            | None => (Failed (Builtin ExternalStoreError), w)
            | Some w' => (Done (tx_count + 1), w')
            end
        end
    end.

(** [main()], from [cpt_maps = [gps, pc, pmd, pr]] on, with the four dicts
    as arguments (the script tells to edit them); it returns the [tx_count]
    it prints. *)
Definition main (gps pc pmd pr : gmap (Z * Z) float) : F W Z :=
  let cpt_maps := [gps; pc; pmd; pr] in
  floop (enumerate cpt_maps) (fun tx_count '(ev_index, mapping) =>
    floop [0; 1] (fun tx_count pph =>
      floop [0; 1] (fun tx_count ppr =>
        fill_cell ev_index mapping tx_count pph ppr) tx_count) tx_count) 0.

End FillCpts.

(** *** What a run of the script writes *)

(** A cell to fill: the index of the variable, its dict, the hidden state. *)
Definition task : Type := Z * gmap (Z * Z) float * Z * Z.

(** A write: index, hidden state, scaled value. *)
Definition write : Type := Z * Z * Z * Z.

(** The cells in the order the three loops walk them. *)
Definition tasks (gps pc pmd pr : gmap (Z * Z) float) : list task :=
  flat_map (fun '(i, mapping) =>
              [(i, mapping, 0, 0); (i, mapping, 0, 1); (i, mapping, 1, 0); (i, mapping, 1, 1)])
           (enumerate [gps; pc; pmd; pr]).

(** The write that a task leads to. *)
Definition planned (t : task) (wr : write) : Prop :=
  let '(i, mapping, pph, ppr) := t in
  exists p_true v,
    mapping !! (pph, ppr) = Some p_true /\
    scale_posterior p_true = Ok v /\
    wr = (i, pph, ppr, v).

(** The cell a write goes to. *)
Definition write_key (wr : write) : Z * Z * Z :=
  let '(i, pph, ppr, _) := wr in (i, pph, ppr).

(** The chain after a list of writes, when the store takes them all. *)
Fixpoint apply_writes {W : Type} {writer : CptWriter W} (w : W) (ws : list write)
    : option W :=
  match ws with
  | [] => Some w
  | (i, pph, ppr, v) :: ws' =>
      match setEvidenceCPT w i pph ppr v with
      | Some w' => apply_writes w' ws'
      | None => None
      end
  end.

(** Why a task fails on the chain [w]. *)
Definition fails_with {W : Type} {writer : CptWriter W} (t : task) (w : W)
    (e : fill_exn) : Prop :=
  let '(i, mapping, pph, ppr) := t in
  match mapping !! (pph, ppr) with
  | None => e = KeyError (pph, ppr)
  | Some p_true =>
      match scale_posterior p_true with
      | Raise e' => e = Builtin e'
      | Ok v => setEvidenceCPT w i pph ppr v = None /\ e = Builtin ExternalStoreError
      end
  end.

(** The cells one after the other, the loops flattened. *)
Fixpoint run_tasks {W : Type} {writer : CptWriter W} (ts : list task) (tx_count : Z)
    : F W Z :=
  match ts with
  | [] => fret tx_count
  | (i, mapping, pph, ppr) :: ts' =>
      fbind (fill_cell i mapping tx_count pph ppr) (fun n => run_tasks ts' n)
  end.

(** The store keeps a cell that is set, and a set touches neither another
    cell nor a prior. *)
Definition store_keeps_cells {W : Type} {chain : Chain W} {writer : CptWriter W} : Prop :=
  forall (w w' : W) i pph ppr v,
    setEvidenceCPT w i pph ppr v = Some w' ->
    getEvidenceTrueCPT w' i pph ppr = Some v /\
    (forall i' pph' ppr', (i', pph', ppr') <> (i, pph, ppr) ->
       getEvidenceTrueCPT w' i' pph' ppr' = getEvidenceTrueCPT w i' pph' ppr') /\
    priorPPH w' = priorPPH w /\
    priorPPR w' = priorPPR w.

(** [ledger] as a store that can be written. *)
Definition set_cpt (i pph ppr v : Z) (l : Ledger.ledger) : Ledger.ledger :=
  {| Ledger.store_priorPPH := Ledger.store_priorPPH l;
     Ledger.store_priorPPR := Ledger.store_priorPPR l;
     Ledger.store_cpt := fun i' pph' ppr' =>
       if bool_decide ((i', pph', ppr') = (i, pph, ppr)) then v
       else Ledger.store_cpt l i' pph' ppr';
     Ledger.registry_rows := Ledger.registry_rows l;
     Ledger.claim_posteriors := Ledger.claim_posteriors l;
     Ledger.logged := Ledger.logged l |}.

Definition ledger_writer : CptWriter Ledger.ledger :=
  {| setEvidenceCPT l i pph ppr v := Some (set_cpt i pph ppr v l) |}.

(** A dict that lacks the cell [(1, 0)]. *)
Definition holed : gmap (Z * Z) float :=
  <[(1, 1) := 0.5%float]> (<[(0, 1) := 0.25%float]> (<[(0, 0) := 0.75%float]> ∅)).

End FillCpts.

(** ** More sample ledgers *)

Module MoreSamples.

Import Ledger Samples.

(** [sample] after a third piece, PMD = 1, was added for claim 7. *)
Definition grown : ledger :=
  {| store_priorPPH := 500000; store_priorPPR := 500000;
     store_cpt := sample_cpt;
     registry_rows := sample_rows ++ [piece 2 7 2 1];
     claim_posteriors := ∅;
     logged := [] |}.

(** [sample] after [fill_cpts.main] ran on it with its neutral dicts. *)
Definition filled : ledger :=
  snd (FillCpts.main (writer:=FillCpts.ledger_writer)
         FillCpts.neutral FillCpts.neutral FillCpts.neutral FillCpts.neutral sample).

(** [sample] after [fill_cpts.main] ran on it with a dict for PC that lacks
    an entry. *)
Definition half_filled : ledger :=
  snd (FillCpts.main (writer:=FillCpts.ledger_writer)
         FillCpts.neutral FillCpts.holed FillCpts.neutral FillCpts.neutral sample).

End MoreSamples.

(** * Properties *)

Import Loader DynamicFlow Lifecycle SingleShot Ledger.

(** ** The monad *)

Section MonadFacts.

Context {W : Type} {chain : Chain W}.

Lemma bind_Ok {A B} (m : M W A) (k : A -> M W B) s a s' :
  m s = (Ok a, s') -> bind m k s = k a s'.
Proof. intros E. unfold bind. now rewrite E. Qed.

Lemma bind_Raise {A B} (m : M W A) (k : A -> M W B) s e s' :
  m s = (Raise e, s') -> bind m k s = (Raise e, s').
Proof. intros E. unfold bind. now rewrite E. Qed.

Lemma bind_inv_Ok {A B} (m : M W A) (k : A -> M W B) s b s2 :
  bind m k s = (Ok b, s2) ->
  exists a s1, m s = (Ok a, s1) /\ k a s1 = (Ok b, s2).
Proof.
  unfold bind. destruct (m s) as [[a | e] s1]; intros E.
  - now exists a, s1.
  - discriminate.
Qed.

Lemma bind_inv_Raise {A B} (m : M W A) (k : A -> M W B) s e s2 :
  bind m k s = (Raise e, s2) ->
  m s = (Raise e, s2) \/ exists a s1, m s = (Ok a, s1) /\ k a s1 = (Raise e, s2).
Proof.
  unfold bind. destruct (m s) as [[a | e'] s1]; intros E.
  - right. now exists a, s1.
  - left. now injection E as <- <-.
Qed.

Lemma perform_Some {A} c (f : W -> option A) ans w tr a :
  f w = Some a -> perform c f ans (w, tr) = (Ok a, (w, tr ++ [(c, ans a)])).
Proof. intros E. unfold perform. now rewrite E. Qed.

Lemma transact_Some c (f : W -> option W) w tr w' :
  f w = Some w' -> transact c f (w, tr) = (Ok tt, (w', tr ++ [(c, AReceipt)])).
Proof. intros E. unfold transact. now rewrite E. Qed.

Lemma infer_with_Ok bn evidence (w : W) tr p :
  bn evidence = Ok p ->
  infer_with bn evidence (w, tr) = (Ok p, (w, tr ++ [(bn_infer evidence, APosterior p)])).
Proof. intros E. unfold infer_with. now rewrite E. Qed.

(** *** [emits] *)

Lemma emits_ret {A} P (a : A) : emits P (ret a : M W A).
Proof.
  intros w tr r w' tr' E. injection E as _ _ <-. exists []. now rewrite app_nil_r.
Qed.

Lemma emits_lift {A} P (r : result A) : emits P (lift r : M W A).
Proof.
  intros w tr r' w' tr' E. injection E as _ _ <-. exists []. now rewrite app_nil_r.
Qed.

Lemma emits_bind {A B} P (m : M W A) (k : A -> M W B) :
  emits P m -> (forall a, emits P (k a)) -> emits P (bind m k).
Proof.
  intros Hm Hk w tr r w' tr'. unfold bind.
  destruct (m (w, tr)) as [[a | e] [w1 tr1]] eqn:E1; intros E.
  - destruct (Hm _ _ _ _ _ E1) as (x1 & -> & F1).
    destruct (Hk a _ _ _ _ _ E) as (x2 & -> & F2).
    exists (x1 ++ x2). split; [now rewrite app_assoc | now apply Forall_app].
  - injection E as <- <- <-. exact (Hm _ _ _ _ _ E1).
Qed.

Lemma emits_perform {A} (P : event -> Prop) c (f : W -> option A) ans :
  (forall a, P (c, a)) -> emits P (perform c f ans).
Proof.
  intros Hc w tr r w' tr'. unfold perform.
  destruct (f w); intros E; injection E as _ _ <-; eexists; split; eauto.
Qed.



Lemma emits_for_each {A B} P (l : list A) (body : B -> A -> M W B) b :
  (forall b a, emits P (body b a)) -> emits P (for_each l body b).
Proof.
  intros Hb. revert b. induction l as [| a l IH]; intros b; simpl.
  - apply emits_ret.
  - apply emits_bind; auto.
Qed.

(** *** [read_only] *)

Lemma read_only_ret {A} (a : A) : read_only (ret a : M W A).
Proof. intros w tr r w' tr' E. now injection E as _ <- _. Qed.

Lemma read_only_lift {A} (r : result A) : read_only (lift r : M W A).
Proof. intros w tr r' w' tr' E. now injection E as _ <- _. Qed.

Lemma read_only_bind {A B} (m : M W A) (k : A -> M W B) :
  read_only m -> (forall a, read_only (k a)) -> read_only (bind m k).
Proof.
  intros Hm Hk w tr r w' tr'. unfold bind.
  destruct (m (w, tr)) as [[a | e] [w1 tr1]] eqn:E1; intros E.
  - rewrite (Hk a _ _ _ _ _ E). exact (Hm _ _ _ _ _ E1).
  - injection E as <- <- <-. exact (Hm _ _ _ _ _ E1).
Qed.

Lemma read_only_perform {A} c (f : W -> option A) ans : read_only (perform c f ans).
Proof.
  intros w tr r w' tr'. unfold perform.
  destruct (f w); intros E; now injection E as _ <- _.
Qed.

Lemma read_only_infer_with bn evidence : read_only (infer_with bn evidence : M W _).
Proof.
  intros w tr r w' tr'. unfold infer_with.
  destruct (bn evidence); intros E; now injection E as _ <- _.
Qed.

Lemma read_only_for_each {A B} (l : list A) (body : B -> A -> M W B) b :
  (forall b a, read_only (body b a)) -> read_only (for_each l body b).
Proof.
  intros Hb. revert b. induction l as [| a l IH]; intros b; simpl.
  - apply read_only_ret.
  - apply read_only_bind; auto.
Qed.

(** *** [raises] *)

Lemma raises_ret {A} E (a : A) : raises E (ret a : M W A).
Proof. intros s e s' X. discriminate. Qed.

Lemma raises_lift {A} (E : exn -> Prop) (r : result A) :
  (forall e, r = Raise e -> E e) -> raises E (lift r : M W A).
Proof. intros Hr s e s' X. injection X as X _. auto. Qed.

Lemma raises_bind {A B} E (m : M W A) (k : A -> M W B) :
  raises E m -> (forall a, raises E (k a)) -> raises E (bind m k).
Proof.
  intros Hm Hk s e s' X. apply bind_inv_Raise in X as [X | (a & s1 & _ & X)].
  - exact (Hm _ _ _ X).
  - exact (Hk _ _ _ _ X).
Qed.

Lemma raises_perform {A} (E : exn -> Prop) c (f : W -> option A) ans :
  E ExternalStoreError -> raises E (perform c f ans).
Proof.
  intros He [w tr] e s'. unfold perform.
  destruct (f w); intros X; [discriminate | now injection X as <- _].
Qed.

Lemma raises_transact (E : exn -> Prop) c (f : W -> option W) :
  E ExternalStoreError -> raises E (transact c f).
Proof.
  intros He [w tr] e s'. unfold transact.
  destruct (f w); intros X; [discriminate | now injection X as <- _].
Qed.

Lemma raises_infer_with (E : exn -> Prop) bn evidence :
  (forall e, bn evidence = Raise e -> E e) -> raises E (infer_with bn evidence : M W _).
Proof.
  intros He [w tr] e s'. unfold infer_with.
  destruct (bn evidence) eqn:B; intros X; [discriminate | injection X as <- _; auto].
Qed.

Lemma raises_for_each {A B} E (l : list A) (body : B -> A -> M W B) b :
  (forall b a, raises E (body b a)) -> raises E (for_each l body b).
Proof.
  intros Hb. revert b. induction l as [| a l IH]; intros b; simpl.
  - apply raises_ret.
  - apply raises_bind; auto.
Qed.

(** *** [returns] *)

Lemma returns_for_each {A B} (Q : B -> Prop) (l : list A) (body : B -> A -> M W B) b :
  Q b -> (forall b a, Q b -> returns Q (body b a)) -> returns Q (for_each l body b).
Proof.
  intros Hq Hb. revert b Hq. induction l as [| a l IH]; intros b Hq s r s'; simpl.
  - intros X. now injection X as <- _.
  - intros X. apply bind_inv_Ok in X as (b1 & s1 & X1 & X2).
    exact (IH b1 (Hb _ _ Hq _ _ _ X1) _ _ _ X2).
Qed.

End MonadFacts.

(** ** Rounding and scaling *)

Section Rounding.

Lemma nearest_even_Z n a b :
  nearest_even n (a # b) <->
  2 * Z.abs (n * Zpos b - a) <= Zpos b /\
  (2 * Z.abs (n * Zpos b - a) = Zpos b -> Z.even n = true).
Proof.
  unfold nearest_even, Qabs, Qminus, Qplus, Qopp, Qle, Qeq, inject_Z. simpl.
  replace (n * Zpos b + - a * 1) with (n * Zpos b - a) by lia.
  rewrite !Pos.mul_1_l.
  split; intros [H1 H2]; (split; [lia | intros E; apply H2; lia]).
Qed.

Lemma nearest_even_exact n : nearest_even n (inject_Z n).
Proof.
  unfold inject_Z. apply nearest_even_Z. split; [lia | intros X; exfalso; lia].
Qed.

Lemma round_half_even_nearest num den :
  nearest_even (round_half_even num den) (num # den).
Proof.
  apply nearest_even_Z. unfold round_half_even.
  pose proof (Z.div_mod num (Zpos den) ltac:(lia)) as D.
  pose proof (Z.mod_pos_bound num (Zpos den) ltac:(lia)) as B.
  set (q := num / Zpos den) in *. set (r := num mod Zpos den) in *.
  destruct (Z.compare_spec (2 * r) (Zpos den)) as [E | L | G].
  - destruct (Z.even q) eqn:Ev.
    + split; [nia | auto].
    + split; [nia | intros _].
      rewrite Z.even_add, Ev. reflexivity.
  - split; [nia | intros X; exfalso; nia].
  - split; [nia | intros X; exfalso; nia].
Qed.

(** [round] returns a nearest integer of its argument, the even one at a tie. *)
Lemma py_round_nearest x n :
  py_round x = Ok n -> nearest_even n (float_value x).
Proof.
  unfold py_round, float_value, SF2Q.
  destruct (Prim2SF x) as [s | s | | s m e]; try discriminate.
  - intros [= <-]. apply (nearest_even_exact 0).
  - intros [= <-]. destruct e as [| k | k].
    + apply nearest_even_exact.
    + apply nearest_even_exact.
    + apply round_half_even_nearest.
Qed.

(** A rounded value is within [[0, SCALE]] exactly when what was rounded is
    within [[-1/2, SCALE + 1/2]]: both ends are even, so both ties fall in. *)
Lemma nearest_even_range n q :
  nearest_even n q ->
  (0 <= n <= SCALE <-> (- (1 # 2) <= q <= inject_Z SCALE + (1 # 2))%Q).
Proof.
  destruct q as [a b]. intros Hn. apply nearest_even_Z in Hn as [H1 H2].
  unfold Qle, Qplus, Qopp, inject_Z, SCALE in *. simpl.
  split.
  - intros [L U]. split; nia.
  - intros [L U].
    assert (Hlo : n <> -1).
    { intros ->. assert (E : Z.even (-1) = true) by (apply H2; nia). discriminate. }
    assert (Hhi : n <> 1000001).
    { intros ->. assert (E : Z.even 1000001 = true) by (apply H2; nia). discriminate. }
    split; nia.
Qed.

(** [scale_posterior] fails on a product that is not a finite number only. *)
Lemma scale_posterior_finite p :
  is_ok (scale_posterior p) =
  match Prim2SF (p * SCALE_float)%float with
  | S754_nan | S754_infinity _ => false
  | _ => true
  end.
Proof.
  unfold scale_posterior, py_round.
  now destruct (Prim2SF (p * SCALE_float)%float).
Qed.

(** C1, as amended. Each posterior component [p] is converted to Python's
    [round(p * SCALE)]: a nearest integer of the double-precision product,
    the even one at a tie. Nothing is clamped: the result is within
    [[0, SCALE]] exactly when the product is within [[-1/2, SCALE + 1/2]]. *)
Theorem scale_posterior_rounds_half_even p n :
  scale_posterior p = Ok n ->
  nearest_even n (float_value (p * SCALE_float)) /\
  (0 <= n <= SCALE <->
   (- (1 # 2) <= float_value (p * SCALE_float) <= inject_Z SCALE + (1 # 2))%Q).
Proof.
  intros E. apply py_round_nearest in E.
  split; [exact E | now apply nearest_even_range].
Qed.

Lemma scale_posterior_rounds_half_even_witness :
  nearest_even 39062 (float_value (0.0390625 * SCALE_float)) /\
  (0 <= 39062 <= SCALE <->
   (- (1 # 2) <= float_value (0.0390625 * SCALE_float) <= inject_Z SCALE + (1 # 2))%Q).
Proof. apply (scale_posterior_rounds_half_even 0.0390625 39062). reflexivity. Defined.

(** C1, as stated, fails. The probability [5/128], which the engine gives on
    the sample store for GPS=1 and PC=1, scales to the tie [39062.5]: the
    code submits 39062 where rounding away from zero gives 39063; and a
    component of 2, which a corrupted store can produce, is submitted as
    [2 * SCALE] where a clamp would give [SCALE]. *)
Lemma scale_posterior_not_half_away_nor_clamped :
  Samples.sample_bn Samples.sample_evidence = Ok {| PPH := 0.0390625; PPR := 0.5 |} /\
  in_unit_interval 0.0390625 = true /\
  (0.0390625 * SCALE_float)%float = 39062.5%float /\
  scale_posterior 0.0390625 = Ok 39062 /\
  spec_fixed_point 0.0390625 = 39063 /\
  scale_posterior 2 = Ok 2000000 /\
  spec_fixed_point 2 = SCALE.
Proof. repeat split; reflexivity. Qed.

End Rounding.

(** ** The loader *)

Import LoaderSpec.

Section LoaderFacts.

Context {W : Type} {chain : Chain W}.

Lemma descale_uint256 z : uint256 z -> descale z = Ok (true_quotient z).
Proof.
  intros [L U]. unfold descale.
  destruct (Z.leb_spec (SCALE * (2 ^ 1024 - 2 ^ 970)) (Z.abs z)) as [X | X]; [| reflexivity].
  exfalso. rewrite Z.abs_eq in X by lia.
  assert (2 ^ 256 < SCALE * (2 ^ 1024 - 2 ^ 970)) by reflexivity. lia.
Qed.

Lemma descale_raises z e : descale z = Raise e -> e = OverflowError.
Proof. unfold descale. destruct (_ <=? _); now intros [= <-]. Qed.

Lemma bind_perform {A B} c (f : W -> option A) ans (k : A -> M W B) w tr a :
  f w = Some a ->
  bind (perform c f ans) k (w, tr) = k a (w, tr ++ [(c, ans a)]).
Proof. intros E. apply bind_Ok. now apply perform_Some. Qed.

Lemma bind_transact {B} c (f : W -> option W) (k : unit -> M W B) w tr w' :
  f w = Some w' ->
  bind (transact c f) k (w, tr) = k tt (w', tr ++ [(c, AReceipt)]).
Proof. intros E. apply bind_Ok. now apply transact_Some. Qed.

Lemma bind_infer_with {B} bn evidence (k : posterior -> M W B) w tr p :
  bn evidence = Ok p ->
  bind (infer_with bn evidence) k (w, tr) =
  k p (w, tr ++ [(bn_infer evidence, APosterior p)]).
Proof. intros E. apply bind_Ok. now apply infer_with_Ok. Qed.

Lemma bind_lift_Ok {A B} (a : A) (k : A -> M W B) s : bind (lift (Ok a)) k s = k a s.
Proof. reflexivity. Qed.

Lemma bind_ret {A B} (a : A) (k : A -> M W B) s : bind (ret a) k s = k a s.
Proof. reflexivity. Qed.

Lemma bind_assoc {A B C} (m : M W A) (k1 : A -> M W B) (k2 : B -> M W C) s :
  bind (bind m k1) k2 s = bind m (fun a => bind (k1 a) k2) s.
Proof. unfold bind. now destruct (m s) as [[a | e] s1]. Qed.

End LoaderFacts.

(** One step of a run whose calls are answered by hypotheses. *)
Ltac run_step :=
  cbn beta;
  first [ rewrite bind_assoc
        | rewrite bind_ret
        | rewrite bind_lift_Ok
        | erewrite bind_perform by eassumption
        | erewrite bind_transact by eassumption
        | erewrite bind_infer_with by eassumption
        | match goal with
          | D : ?r = Ok _ |- context [lift ?r] => rewrite D
          end ].

Section LoaderRuns.

Context {W : Type} {chain : Chain W}.

Lemma fill_table_run (w : W) tr cell i table :
  cells_answer w cell -> In i [0; 1; 2; 3] ->
  fill_table i table (w, tr) = (Ok (table_of cell i table), (w, tr ++ table_reads cell i)).
Proof.
  intros Hc Hi. unfold fill_table, table_of, table_reads. cbn [for_each].
  assert (Hr : forall pph ppr, In pph [0; 1] -> In ppr [0; 1] ->
             getEvidenceTrueCPT w i pph ppr = Some (cell i pph ppr) /\
             descale (cell i pph ppr) = Ok (true_quotient (cell i pph ppr))).
  { intros pph ppr Hp Hq. destruct (Hc i pph ppr Hi Hp Hq) as [E U].
    split; [exact E | now apply descale_uint256]. }
  destruct (Hr 0 0) as [E00 D00]; [simpl; tauto .. |].
  destruct (Hr 0 1) as [E01 D01]; [simpl; tauto .. |].
  destruct (Hr 1 0) as [E10 D10]; [simpl; tauto .. |].
  destruct (Hr 1 1) as [E11 D11]; [simpl; tauto .. |].
  repeat run_step.
  unfold ret. now rewrite <- !app_assoc.
Qed.

(** A store that answers is loaded into the quotients of its answers,
    by 18 reads. *)
Lemma load_run (w : W) tr a b cell :
  store_answers w a b cell ->
  load_priors_and_cpts_from_chain (w, tr) =
  (Ok (priors_of a b, cpts_of cell), (w, tr ++ reads_of a b cell)).
Proof.
  intros ((Ea & Ua) & (Eb & Ub) & Hc).
  pose proof (descale_uint256 a Ua) as Da.
  pose proof (descale_uint256 b Ub) as Db.
  unfold load_priors_and_cpts_from_chain.
  repeat run_step.
  unfold idx_to_name. cbn [for_each map].
  repeat run_step.
  repeat (erewrite bind_Ok by (apply (fill_table_run _ _ cell); [exact Hc | simpl; tauto]);
          repeat run_step).
  unfold ret, reads_of. now rewrite <- !app_assoc.
Qed.

Lemma fill_table_raises i table : raises loader_error (fill_table (W:=W) i table).
Proof.
  unfold fill_table.
  apply raises_for_each; intros t pph.
  apply raises_for_each; intros t' ppr.
  apply raises_bind; [apply raises_perform; now left | intros scaled].
  apply raises_bind; [| intros v; apply raises_ret].
  apply raises_lift. intros e X. right. exact (descale_raises _ _ X).
Qed.

Lemma load_raises : raises loader_error (load_priors_and_cpts_from_chain (W:=W)).
Proof.
  unfold load_priors_and_cpts_from_chain.
  apply raises_bind; [apply raises_perform; now left | intros raw_pph].
  apply raises_bind;
    [apply raises_lift; intros e X; right; exact (descale_raises _ _ X) | intros prior_pph].
  apply raises_bind; [apply raises_perform; now left | intros raw_ppr].
  apply raises_bind;
    [apply raises_lift; intros e X; right; exact (descale_raises _ _ X) | intros prior_ppr].
  apply raises_bind; [| intros cpts; apply raises_ret].
  apply raises_for_each. intros cpts [ev_idx name].
  apply raises_bind; [apply fill_table_raises | intros t; apply raises_ret].
Qed.

Lemma load_emits :
  emits (fun ev => is_cpt_read (fst ev) = true) (load_priors_and_cpts_from_chain (W:=W)).
Proof.
  unfold load_priors_and_cpts_from_chain, fill_table.
  repeat first
    [ apply emits_bind; [| intros ?]
    | apply emits_for_each; intros ? ?
    | apply emits_ret
    | apply emits_lift
    | apply emits_perform; intros ?; reflexivity
    | match goal with |- context [let '(_, _) := ?p in _] => destruct p end ].
Qed.

Lemma load_read_only : read_only (load_priors_and_cpts_from_chain (W:=W)).
Proof.
  unfold load_priors_and_cpts_from_chain, fill_table.
  repeat first
    [ apply read_only_bind; [| intros ?]
    | apply read_only_for_each; intros ? ?
    | apply read_only_ret
    | apply read_only_lift
    | apply read_only_perform
    | match goal with |- context [let '(_, _) := ?p in _] => destruct p end ].
Qed.

Lemma cpts_of_shape cell i name :
  (i, name) ∈ idx_to_name ->
  exists table,
    cpts_of cell !! name = Some table /\
    dom table = {[(0, 0); (0, 1); (1, 0); (1, 1)]} /\
    forall pph ppr, In pph [0; 1] -> In ppr [0; 1] ->
      table !! (pph, ppr) = Some (true_quotient (cell i pph ppr)).
Proof.
  intros Hin. exists (table_of cell i ∅).
  assert (Hname : cpts_of cell !! name = Some (table_of cell i ∅)).
  { unfold idx_to_name in Hin.
    repeat (apply elem_of_cons in Hin as [[= -> ->] | Hin]; [reflexivity |]).
    now apply elem_of_nil in Hin. }
  split; [exact Hname | split].
  - unfold table_of. rewrite !dom_insert_L, dom_empty_L. set_solver.
  - intros pph ppr Hp Hq. simpl in Hp, Hq.
    destruct Hp as [<- | [<- | []]], Hq as [<- | [<- | []]]; reflexivity.
Qed.

Lemma cpts_of_dom cell : dom (cpts_of cell) = {["GPS"; "PC"; "PMD"; "PR"]}.
Proof. unfold cpts_of. rewrite !dom_insert_L, dom_empty_L. set_solver. Qed.

(** C4. Whenever the store answers, the loader performs exactly 18 reads,
    the two priors and then, for each evidence variable 0..3 and each hidden
    state, one cell; the cells of index [i] go to the table named by
    [{0:GPS, 1:PC, 2:PMD, 3:PR}]; the model returned has exactly these four
    tables, each with exactly the four entries [(0,0), (0,1), (1,0), (1,1)]. *)
Theorem loader_performs_18_reads (w : W) tr a b cell :
  store_answers w a b cell ->
  load_priors_and_cpts_from_chain (w, tr) =
    (Ok (priors_of a b, cpts_of cell), (w, tr ++ reads_of a b cell)) /\
  length (reads_of a b cell) = 18%nat /\
  dom (cpts_of cell) = {["GPS"; "PC"; "PMD"; "PR"]} /\
  forall i name, (i, name) ∈ idx_to_name ->
    exists table,
      cpts_of cell !! name = Some table /\
      dom table = {[(0, 0); (0, 1); (1, 0); (1, 1)]} /\
      forall pph ppr, In pph [0; 1] -> In ppr [0; 1] ->
        table !! (pph, ppr) = Some (true_quotient (cell i pph ppr)).
Proof.
  intros Hs. split; [now apply load_run | split; [reflexivity | split]].
  - apply cpts_of_dom.
  - apply cpts_of_shape.
Qed.

(** C3, as amended. The loader divides every raw value by [SCALE] and checks
    no range: whenever the store answers, it returns the model of the
    quotients, whatever they are; and it ends with no exception other than
    a failure of the store or an overflow of the quotient. *)
Theorem loader_descales_without_validation (w : W) tr a b cell :
  store_answers w a b cell ->
  load_priors_and_cpts_from_chain (w, tr) =
    (Ok (priors_of a b, cpts_of cell), (w, tr ++ reads_of a b cell)) /\
  priors_of a b !! "PPH" = Some (true_quotient a) /\
  priors_of a b !! "PPR" = Some (true_quotient b) /\
  (forall i name pph ppr, (i, name) ∈ idx_to_name -> In pph [0; 1] -> In ppr [0; 1] ->
     cpts_of cell !! name ≫= (fun table => table !! (pph, ppr)) =
     Some (true_quotient (cell i pph ppr))) /\
  raises loader_error (load_priors_and_cpts_from_chain (W:=W)).
Proof.
  intros Hs. split; [now apply load_run |].
  split; [reflexivity | split; [reflexivity | split]].
  - intros i name pph ppr Hin Hp Hq.
    destruct (cpts_of_shape cell i name Hin) as (table & -> & _ & Ht).
    simpl. now apply Ht.
  - apply load_raises.
Qed.

End LoaderRuns.

Lemma sample_answers :
  store_answers (chain:=controller_chain) sample 500000 500000 sample_cpt.
Proof.
  repeat split; try reflexivity; try (unfold uint256; lia);
    simpl in *; intuition subst; vm_compute; congruence.
Defined.

Lemma corrupted_answers :
  store_answers (chain:=controller_chain) corrupted 2000000 500000 sample_cpt.
Proof.
  repeat split; try reflexivity; try (unfold uint256; lia);
    simpl in *; intuition subst; vm_compute; congruence.
Defined.

Lemma loader_performs_18_reads_witness :
  load_priors_and_cpts_from_chain (chain:=controller_chain) (sample, []) =
    (Ok (priors_of 500000 500000, cpts_of sample_cpt),
     (sample, [] ++ reads_of 500000 500000 sample_cpt)) /\
  length (reads_of 500000 500000 sample_cpt) = 18%nat /\
  dom (cpts_of sample_cpt) = {["GPS"; "PC"; "PMD"; "PR"]} /\
  forall i name, (i, name) ∈ idx_to_name ->
    exists table,
      cpts_of sample_cpt !! name = Some table /\
      dom table = {[(0, 0); (0, 1); (1, 0); (1, 1)]} /\
      forall pph ppr, In pph [0; 1] -> In ppr [0; 1] ->
        table !! (pph, ppr) = Some (true_quotient (sample_cpt i pph ppr)).
Proof.
  exact (loader_performs_18_reads (chain:=controller_chain) sample [] _ _ _ sample_answers).
Defined.

Lemma loader_descales_without_validation_witness :
  load_priors_and_cpts_from_chain (chain:=controller_chain) (corrupted, []) =
    (Ok (priors_of 2000000 500000, cpts_of sample_cpt),
     (corrupted, [] ++ reads_of 2000000 500000 sample_cpt)) /\
  priors_of 2000000 500000 !! "PPH" = Some (true_quotient 2000000) /\
  priors_of 2000000 500000 !! "PPR" = Some (true_quotient 500000) /\
  (forall i name pph ppr, (i, name) ∈ idx_to_name -> In pph [0; 1] -> In ppr [0; 1] ->
     cpts_of sample_cpt !! name ≫= (fun table => table !! (pph, ppr)) =
     Some (true_quotient (sample_cpt i pph ppr))) /\
  raises loader_error (load_priors_and_cpts_from_chain (W:=ledger) (chain:=controller_chain)).
Proof.
  exact (loader_descales_without_validation (chain:=controller_chain)
           corrupted [] _ _ _ corrupted_answers).
Defined.

(** C3, as stated, fails. A store whose prior of PPH is twice [SCALE] is
    loaded without a [ParameterRangeError]: the model comes back with a
    prior of 2, outside [[0, 1]]. *)
Lemma loader_returns_out_of_range_model :
  fst (run (load_priors_and_cpts_from_chain (chain:=controller_chain)) corrupted) =
    Ok (priors_of 2000000 500000, cpts_of sample_cpt) /\
  priors_of 2000000 500000 !! "PPH" = Some 2%float /\
  in_unit_interval 2 = false.
Proof. repeat split; reflexivity. Qed.

(** ** Folding the evidence of a claim *)

Import FetchSpec.

Section FoldFacts.

Lemma py_index_names idx :
  0 <= idx < 4 ->
  exists name, py_index EVIDENCE_NAMES idx = Ok name /\
               EVIDENCE_NAMES !! Z.to_nat idx = Some name.
Proof.
  intros Hi.
  assert (C : idx = 0 \/ idx = 1 \/ idx = 2 \/ idx = 3) by lia.
  destruct C as [-> | [-> | [-> | ->]]]; eexists; split; reflexivity.
Qed.

Lemma py_index_elem {A} (l : list A) i x : py_index l i = Ok x -> x ∈ l.
Proof.
  unfold py_index. destruct (_ && _); [| discriminate].
  destruct (l !! _) eqn:E; [| discriminate].
  intros [= <-]. eapply list_elem_of_lookup_2. exact E.
Qed.

Lemma py_index_raises {A} (l : list A) i e : py_index l i = Raise e -> e = IndexError.
Proof.
  unfold py_index. destruct (_ && _); [| now intros [= <-]].
  destruct (l !! _); [discriminate | now intros [= <-]].
Qed.

Lemma fold_piece_in_range acc ev :
  0 <= ev_evidenceIndex ev < 4 ->
  exists name, EVIDENCE_NAMES !! Z.to_nat (ev_evidenceIndex ev) = Some name /\
               fold_piece acc ev = Ok (<[name := ev_value ev]> acc).
Proof.
  intros Hi. destruct (py_index_names _ Hi) as (name & E & L).
  exists name. split; [exact L |]. unfold fold_piece.
  destruct (Z.ltb_spec (ev_evidenceIndex ev) (Z.of_nat (length EVIDENCE_NAMES))) as [X | X].
  - now rewrite E.
  - simpl in X. lia.
Qed.

Lemma fold_piece_skips acc ev :
  4 <= ev_evidenceIndex ev -> fold_piece acc ev = Ok acc.
Proof.
  intros Hi. unfold fold_piece.
  destruct (Z.ltb_spec (ev_evidenceIndex ev) (Z.of_nat (length EVIDENCE_NAMES))) as [X | X].
  - simpl in X. lia.
  - reflexivity.
Qed.

Lemma fold_piece_raises acc ev e : fold_piece acc ev = Raise e -> e = IndexError.
Proof.
  unfold fold_piece. destruct (_ <? _); [| discriminate].
  destruct (py_index _ _) eqn:E; [discriminate |].
  intros [= <-]. exact (py_index_raises _ _ _ E).
Qed.

Lemma names_in_vocabulary name : name ∈ EVIDENCE_NAMES <-> name ∈ vocabulary_set.
Proof.
  unfold EVIDENCE_NAMES, vocabulary_set.
  rewrite !elem_of_cons, !elem_of_union, !elem_of_singleton, elem_of_nil. tauto.
Qed.

Lemma fold_piece_dom acc ev acc' :
  fold_piece acc ev = Ok acc' -> dom acc ⊆ vocabulary_set -> dom acc' ⊆ vocabulary_set.
Proof.
  unfold fold_piece. destruct (_ <? _); [| now intros [= <-]].
  destruct (py_index _ _) as [name |] eqn:E; [| discriminate].
  intros [= <-] Hd. apply py_index_elem, names_in_vocabulary in E.
  rewrite dom_insert. apply union_subseteq. split; [| exact Hd].
  now apply singleton_subseteq_l.
Qed.




End FoldFacts.

(** ** Fetching the evidence of a claim *)

Section FetchFacts.

Context {W : Type} {chain : Chain W}.

Lemma returns_bind {A B} (Q : B -> Prop) (m : M W A) (k : A -> M W B) :
  (forall a, returns Q (k a)) -> returns Q (bind m k).
Proof.
  intros Hk s b s' X. apply bind_inv_Ok in X as (a & s1 & _ & X).
  exact (Hk _ _ _ _ X).
Qed.

Lemma returns_lift {A} (Q : A -> Prop) (r : result A) :
  (forall a, r = Ok a -> Q a) -> returns Q (lift r : M W A).
Proof. intros Hr s a s' X. injection X as X _. auto. Qed.

(** The loop of the fetch, when the registry answers and the fold ends. *)
Lemma fetch_loop_run (w : W) ids rows :
  Forall2 (fun eid r => evidences w eid = Some r) ids rows ->
  forall acc snapshot tr,
  fold_pieces acc rows = Ok snapshot ->
  for_each ids (fun evidence_values eid =>
      let! ev := perform (c_evidences eid) (fun w => evidences w eid) ARow in
      lift (fold_piece evidence_values ev)) acc (w, tr) =
  (Ok snapshot, (w, tr ++ zip_with (fun eid r => (c_evidences eid, ARow r)) ids rows)).
Proof.
  induction 1 as [| eid r ids rows E _ IH]; intros acc snapshot tr Hf; simpl in *.
  - injection Hf as <-. now rewrite app_nil_r.
  - destruct (fold_piece acc r) as [acc' |] eqn:P; [| discriminate].
    rewrite bind_assoc.
    rewrite (bind_perform (c_evidences eid) (fun w => evidences w eid) ARow _ w tr r E).
    cbn beta.
    rewrite P, bind_lift_Ok, (IH _ _ _ Hf).
    now rewrite <- app_assoc.
Qed.

Lemma fetch_run (w : W) tr claim_id ids rows snapshot :
  registry_answers w claim_id ids rows ->
  fold_pieces ∅ rows = Ok snapshot ->
  _fetch_evidence_for_claim claim_id (w, tr) =
  (Ok snapshot, (w, tr ++ fetch_reads claim_id ids rows)).
Proof.
  intros [Ei Er] Hf. unfold _fetch_evidence_for_claim, fetch_reads.
  rewrite (bind_perform (c_getEvidenceIdsForClaim claim_id)
             (fun w => getEvidenceIdsForClaim w claim_id) AIds _ w tr ids Ei).
  rewrite (fetch_loop_run _ _ _ Er _ _ _ Hf).
  now rewrite <- app_assoc.
Qed.

Lemma fetch_emits claim_id :
  emits (fun ev => is_evidence_read (fst ev) = true)
        (_fetch_evidence_for_claim (W:=W) claim_id).
Proof.
  unfold _fetch_evidence_for_claim.
  apply emits_bind; [apply emits_perform; reflexivity | intros ids].
  apply emits_for_each. intros acc eid.
  apply emits_bind; [apply emits_perform; reflexivity | intros ev; apply emits_lift].
Qed.

Lemma fetch_read_only claim_id : read_only (_fetch_evidence_for_claim (W:=W) claim_id).
Proof.
  unfold _fetch_evidence_for_claim.
  apply read_only_bind; [apply read_only_perform | intros ids].
  apply read_only_for_each. intros acc eid.
  apply read_only_bind; [apply read_only_perform | intros ev; apply read_only_lift].
Qed.

Lemma fetch_returns_vocabulary claim_id :
  returns (fun snapshot => dom snapshot ⊆ vocabulary_set)
          (_fetch_evidence_for_claim (W:=W) claim_id).
Proof.
  unfold _fetch_evidence_for_claim.
  apply returns_bind. intros ids.
  apply returns_for_each.
  - rewrite dom_empty. apply empty_subseteq.
  - intros acc eid Hd. apply returns_bind. intros ev.
    apply returns_lift. intros acc' E. exact (fold_piece_dom _ _ _ E Hd).
Qed.


(** C6, as amended. A piece whose index is 4 or more is skipped: the loop
    body leaves the snapshot as it was and raises nothing, and the fold goes
    on with the rows that follow as if the piece were not there. *)
Theorem piece_beyond_vocabulary_is_skipped (evidence_values : gmap string Z) ev rows :
  4 <= ev_evidenceIndex ev ->
  fold_piece evidence_values ev = Ok evidence_values /\
  fold_pieces evidence_values (ev :: rows) = fold_pieces evidence_values rows.
Proof.
  intros Hi. unfold fold_piece at 1. cbn [fold_pieces].
  destruct (Z.ltb_spec (ev_evidenceIndex ev) (Z.of_nat (length EVIDENCE_NAMES))) as [X | X].
  - simpl in X. lia.
  - rewrite (fold_piece_skips _ _ Hi). split; reflexivity.
Qed.

(** C9. A snapshot that the fetch returns has its keys among GPS, PC, PMD
    and PR, and the inference engine does not answer it with an
    [UnknownVariableError]. *)
Theorem snapshot_within_vocabulary (w : W) tr claim_id snapshot s' :
  _fetch_evidence_for_claim claim_id (w, tr) = (Ok snapshot, s') ->
  dom snapshot ⊆ vocabulary_set /\
  (forall name v, snapshot !! name = Some v -> name ∈ EVIDENCE_NAMES) /\
  (forall priors cpts, Engine.BNOracle priors cpts snapshot <> Raise UnknownVariableError).
Proof.
  intros X. pose proof (fetch_returns_vocabulary claim_id _ _ _ X) as Hd.
  assert (Hk : forall name v, snapshot !! name = Some v -> name ∈ EVIDENCE_NAMES).
  { intros name v E. apply names_in_vocabulary, Hd, elem_of_dom. eauto. }
  split; [exact Hd | split; [exact Hk |]].
  intros priors cpts. unfold Engine.BNOracle.
  assert (Hall : forallb (fun name => bool_decide (name ∈ Engine.vocabulary))
                   (map fst (map_to_list snapshot)) = true).
  { apply forallb_forall. intros name Hin.
    apply in_map_iff in Hin as ([k v] & <- & Hin). simpl.
    apply list_elem_of_In, elem_of_map_to_list in Hin.
    apply bool_decide_eq_true. exact (Hk _ _ Hin). }
  rewrite Hall. now destruct (_ =? _)%float.
Qed.

(** C8. When the snapshot fetched for the claim is empty, the step returns
    at once: the engine is not used, nothing is submitted, the chain is as it
    was, and so is the stored posterior of the claim. *)
Theorem empty_snapshot_commits_nothing bn claim_id (w : W) tr w' tr' :
  _fetch_evidence_for_claim claim_id (w, tr) = (Ok ∅, (w', tr')) ->
  _compute_and_commit_posterior bn claim_id (w, tr) = (Ok tt, (w', tr')) /\
  w' = w /\
  claims w' claim_id = claims w claim_id /\
  exists ext, tr' = tr ++ ext /\ Forall (fun ev => is_evidence_read (fst ev) = true) ext.
Proof.
  intros X.
  pose proof (fetch_read_only claim_id _ _ _ _ _ X) as ->.
  split; [| split; [reflexivity | split; [reflexivity |]]].
  - unfold _compute_and_commit_posterior. now rewrite (bind_Ok _ _ _ _ _ X).
  - exact (fetch_emits claim_id _ _ _ _ _ X).
Qed.

End FetchFacts.

(** ** Committing a posterior *)

Import StoreContract.

Section CommitFacts.

Context {W : Type} {chain : Chain W}.

Lemma perform_inv_Ok {A} c (f : W -> option A) ans w tr a s' :
  perform c f ans (w, tr) = (Ok a, s') ->
  f w = Some a /\ s' = (w, tr ++ [(c, ans a)]).
Proof. unfold perform. destruct (f w); intros X; [now injection X as <- <- | discriminate]. Qed.

Lemma transact_inv_Ok c (f : W -> option W) w tr u s' :
  transact c f (w, tr) = (Ok u, s') ->
  exists w', f w = Some w' /\ s' = (w', tr ++ [(c, AReceipt)]).
Proof.
  unfold transact. destruct (f w) as [w' |]; intros X; [| discriminate].
  exists w'. now injection X as _ <-.
Qed.

Lemma infer_with_inv_Ok bn evidence (w : W) tr p s' :
  infer_with bn evidence (w, tr) = (Ok p, s') ->
  bn evidence = Ok p /\ s' = (w, tr ++ [(bn_infer evidence, APosterior p)]).
Proof.
  unfold infer_with. destruct (bn evidence); intros X; [now injection X as <- <- | discriminate].
Qed.

Lemma lift_inv_Ok {A} (r : result A) (s : state W) a s' :
  lift r s = (Ok a, s') -> r = Ok a /\ s' = s.
Proof. intros X. now injection X as -> ->. Qed.

Lemma scale_posterior_raises p e :
  scale_posterior p = Raise e -> commit_error e.
Proof.
  unfold scale_posterior, py_round, commit_error.
  destruct (Prim2SF _); intros [= <-]; tauto.
Qed.

Lemma py_div_SCALE_raises v e : py_div_SCALE v = Raise e -> commit_error e.
Proof.
  unfold commit_error.
  destruct v as [z | [] | s | s]; simpl; intros X;
    try (apply descale_raises in X); try (injection X as <-); tauto.
Qed.

Lemma unpack_claim_row_raises row e : unpack_claim_row row = Raise e -> commit_error e.
Proof.
  unfold commit_error, unpack_claim_row.
  do 9 (destruct row as [| ? row]; [now intros [= <-]; tauto |]); try discriminate.
  all: intros [= <-]; tauto.
Qed.

End CommitFacts.

Section CommitRuns.

Context {W : Type} {chain : Chain W}.

Lemma fetch_raises claim_id :
  raises commit_error (_fetch_evidence_for_claim (W:=W) claim_id).
Proof.
  unfold _fetch_evidence_for_claim, commit_error.
  apply raises_bind; [apply raises_perform; tauto | intros ids].
  apply raises_for_each. intros acc eid.
  apply raises_bind; [apply raises_perform; tauto | intros ev].
  apply raises_lift. intros e X. apply fold_piece_raises in X. tauto.
Qed.

(** The exceptions of [_compute_and_commit_posterior] are those of its
    calls, of the engine and of the conversions: none comes from comparing
    the read-back with what was submitted. *)
Lemma commit_raises bn claim_id :
  raises (fun e => commit_error e \/ exists evidence, bn evidence = Raise e)
         (_compute_and_commit_posterior (W:=W) bn claim_id).
Proof.
  unfold _compute_and_commit_posterior.
  apply raises_bind.
  { intros s e s' X. left. exact (fetch_raises claim_id _ _ _ X). }
  intros evidence. destruct (bool_decide _); [apply raises_ret |].
  apply raises_bind; [apply raises_infer_with; eauto | intros p].
  apply raises_bind;
    [apply raises_lift; intros e X; left; exact (scale_posterior_raises _ _ X) | intros a].
  apply raises_bind;
    [apply raises_lift; intros e X; left; exact (scale_posterior_raises _ _ X) | intros b].
  apply raises_bind; [apply raises_transact; left; red; tauto | intros _].
  apply raises_bind; [apply raises_perform; left; red; tauto | intros row].
  apply raises_bind;
    [apply raises_lift; intros e X; left; exact (unpack_claim_row_raises _ _ X) | intros f].
  apply raises_bind;
    [apply raises_lift; intros e X; left; exact (py_div_SCALE_raises _ _ X) | intros _].
  apply raises_bind;
    [apply raises_lift; intros e X; left; exact (py_div_SCALE_raises _ _ X) | intros _].
  apply raises_ret.
Qed.

Lemma is_ok_Ok {A} (r : result A) : is_ok r = true -> exists a, r = Ok a.
Proof. destruct r; [eauto | discriminate]. Qed.

(** [_compute_and_commit_posterior] run forward, past a snapshot that is
    not empty. *)
Lemma commit_run bn claim_id (w : W) tr w0 tr0 evidence p a b w1 row fields :
  _fetch_evidence_for_claim claim_id (w, tr) = (Ok evidence, (w0, tr0)) ->
  evidence <> ∅ ->
  bn evidence = Ok p ->
  scale_posterior (PPH p) = Ok a ->
  scale_posterior (PPR p) = Ok b ->
  submitInference w0 [claim_id; a; b] = Some w1 ->
  claims w1 claim_id = Some row ->
  unpack_claim_row row = Ok fields ->
  is_ok (py_div_SCALE (fst fields)) = true ->
  is_ok (py_div_SCALE (snd fields)) = true ->
  _compute_and_commit_posterior bn claim_id (w, tr) =
    (Ok tt, (w1, tr0 ++ commit_events claim_id evidence p a b row)).
Proof.
  intros Hf Hne Hp Ha Hb Hs Hc Hu H1 H2.
  apply is_ok_Ok in H1 as (q1 & H1). apply is_ok_Ok in H2 as (q2 & H2).
  unfold _compute_and_commit_posterior.
  rewrite (bind_Ok _ _ _ _ _ Hf).
  rewrite bool_decide_eq_false_2 by exact Hne.
  erewrite bind_infer_with by exact Hp. cbn beta.
  rewrite Ha, bind_lift_Ok, Hb, bind_lift_Ok.
  rewrite (bind_transact _ (fun w => submitInference w [claim_id; a; b]) _ w0 _ w1 Hs).
  rewrite (bind_perform _ (fun w => claims w claim_id) ATuple _ w1 _ row Hc).
  cbn beta. rewrite Hu, bind_lift_Ok, H1, bind_lift_Ok, H2, bind_lift_Ok.
  unfold ret, commit_events. now rewrite <- !app_assoc.
Qed.

(** C2, as amended. After a submission the step reads the row of the claim
    again, and that is all it does with it: whenever the submission goes
    through and the row read back decodes, the step returns normally,
    whatever posterior the row holds; and no exception of the step comes
    from a comparison, there being none. *)
Theorem commit_rereads_without_comparing bn claim_id (w : W) tr w0 tr0
    evidence p a b w1 row fields :
  _fetch_evidence_for_claim claim_id (w, tr) = (Ok evidence, (w0, tr0)) ->
  evidence <> ∅ ->
  bn evidence = Ok p ->
  scale_posterior (PPH p) = Ok a ->
  scale_posterior (PPR p) = Ok b ->
  submitInference w0 [claim_id; a; b] = Some w1 ->
  claims w1 claim_id = Some row ->
  unpack_claim_row row = Ok fields ->
  is_ok (py_div_SCALE (fst fields)) = true ->
  is_ok (py_div_SCALE (snd fields)) = true ->
  _compute_and_commit_posterior bn claim_id (w, tr) =
    (Ok tt, (w1, tr0 ++ commit_events claim_id evidence p a b row)) /\
  raises (fun e => commit_error e \/ exists evidence, bn evidence = Raise e)
         (_compute_and_commit_posterior (W:=W) bn claim_id).
Proof.
  intros Hf Hne Hp Ha Hb Hs Hc Hu H1 H2.
  split; [now apply (commit_run bn claim_id w tr w0 tr0 evidence p a b w1 row fields)
         | apply commit_raises].
Qed.






End CommitRuns.

Section DynamicCommit.

Context {W : Type} {chain : Chain W}.

(** [_compute_and_commit_posterior] run backward, past a snapshot that is
    not empty. *)
Lemma commit_inv bn claim_id (w : W) tr evidence w0 tr0 w1 tr1 :
  _fetch_evidence_for_claim claim_id (w, tr) = (Ok evidence, (w0, tr0)) ->
  evidence <> ∅ ->
  _compute_and_commit_posterior bn claim_id (w, tr) = (Ok tt, (w1, tr1)) ->
  exists p a b row fields,
    bn evidence = Ok p /\
    scale_posterior (PPH p) = Ok a /\
    scale_posterior (PPR p) = Ok b /\
    submitInference w0 [claim_id; a; b] = Some w1 /\
    claims w1 claim_id = Some row /\
    unpack_claim_row row = Ok fields /\
    is_ok (py_div_SCALE (fst fields)) = true /\
    is_ok (py_div_SCALE (snd fields)) = true /\
    tr1 = tr0 ++ commit_events claim_id evidence p a b row.
Proof.
  intros Hf Hne. unfold _compute_and_commit_posterior.
  rewrite (bind_Ok _ _ _ _ _ Hf), bool_decide_eq_false_2 by exact Hne. intros X.
  apply bind_inv_Ok in X as (p & s1 & X1 & X).
  apply infer_with_inv_Ok in X1 as (Hp & ->).
  apply bind_inv_Ok in X as (a & s2 & X2 & X). apply lift_inv_Ok in X2 as (Ha & ->).
  apply bind_inv_Ok in X as (b & s3 & X3 & X). apply lift_inv_Ok in X3 as (Hb & ->).
  apply bind_inv_Ok in X as (u & s4 & X4 & X).
  apply transact_inv_Ok in X4 as (w' & Hs & ->).
  apply bind_inv_Ok in X as (row & s5 & X5 & X).
  apply perform_inv_Ok in X5 as (Hc & ->).
  apply bind_inv_Ok in X as (fields & s6 & X6 & X). apply lift_inv_Ok in X6 as (Hu & ->).
  apply bind_inv_Ok in X as (q1 & s7 & X7 & X). apply lift_inv_Ok in X7 as (H1 & ->).
  apply bind_inv_Ok in X as (q2 & s8 & X8 & X). apply lift_inv_Ok in X8 as (H2 & ->).
  injection X as <- <-.
  exists p, a, b, row, fields.
  rewrite H1, H2. repeat (split; [assumption || reflexivity |]).
  unfold commit_events. now rewrite <- !app_assoc.
Qed.

Lemma unpack_claim_row_lookup row fields :
  unpack_claim_row row = Ok fields ->
  length row = 8%nat /\ row !! 5%nat = Some (fst fields) /\ row !! 6%nat = Some (snd fields).
Proof.
  unfold unpack_claim_row.
  do 9 (destruct row as [| ? row]; [discriminate || (now intros [= <-]) |]).
  discriminate.
Qed.

Lemma lookup_unpack_claim_row row x y :
  length row = 8%nat -> row !! 5%nat = Some x -> row !! 6%nat = Some y ->
  unpack_claim_row row = Ok (x, y).
Proof.
  do 9 (destruct row as [| ? row]; [discriminate || (now intros _ [= <-] [= <-]) |]).
  discriminate.
Qed.

Lemma bind_perform_None {A B} c (f : W -> option A) ans (k : A -> M W B) w tr :
  f w = None ->
  bind (perform c f ans) k (w, tr) =
  (Raise ExternalStoreError, (w, tr ++ [(c, ARaised ExternalStoreError)])).
Proof. intros E. unfold bind, perform. now rewrite E. Qed.

Lemma bind_lift_Raise {A B} e (k : A -> M W B) s : bind (lift (Raise e)) k s = (Raise e, s).
Proof. reflexivity. Qed.

(** The loop of the fetch reads the registry only: on a chain whose registry
    answers the same, it returns the same and adds the same events. *)
Lemma fetch_loop_frame (w w1 : W) ids :
  (forall eid, evidences w1 eid = evidences w eid) ->
  forall acc tr tr1 r w' tr',
  for_each ids (fun evidence_values eid =>
      let! ev := perform (c_evidences eid) (fun w => evidences w eid) ARow in
      lift (fold_piece evidence_values ev)) acc (w, tr) = (r, (w', tr')) ->
  exists ext, tr' = tr ++ ext /\
  for_each ids (fun evidence_values eid =>
      let! ev := perform (c_evidences eid) (fun w => evidences w eid) ARow in
      lift (fold_piece evidence_values ev)) acc (w1, tr1) = (r, (w1, tr1 ++ ext)).
Proof.
  intros Hev. induction ids as [| eid ids IH]; intros acc tr tr1 r w' tr'; cbn [for_each].
  - intros [= <- <- <-]. exists []. now rewrite !app_nil_r.
  - rewrite !bind_assoc.
    destruct (evidences w eid) as [ev |] eqn:E.
    + rewrite (bind_perform (c_evidences eid) (fun w => evidences w eid) ARow _ w tr ev E).
      rewrite (bind_perform (c_evidences eid) (fun w => evidences w eid) ARow _ w1 tr1 ev)
        by (now rewrite Hev).
      cbn beta. destruct (fold_piece acc ev) as [acc' | e].
      * rewrite !bind_lift_Ok. intros X.
        destruct (IH _ _ (tr1 ++ [(c_evidences eid, ARow ev)]) _ _ _ X) as (ext & -> & Y).
        exists ((c_evidences eid, ARow ev) :: ext).
        rewrite Y. split; now rewrite <- app_assoc.
      * rewrite !bind_lift_Raise. intros [= <- <- <-].
        now exists [(c_evidences eid, ARow ev)].
    + rewrite (bind_perform_None (c_evidences eid) (fun w => evidences w eid) ARow _ w tr E).
      rewrite (bind_perform_None (c_evidences eid) (fun w => evidences w eid) ARow _ w1 tr1)
        by (now rewrite Hev).
      intros [= <- <- <-]. now exists [(c_evidences eid, ARaised ExternalStoreError)].
Qed.

Lemma fetch_frame claim_id (w w1 : W) tr tr1 r w' tr' :
  getEvidenceIdsForClaim w1 claim_id = getEvidenceIdsForClaim w claim_id ->
  (forall eid, evidences w1 eid = evidences w eid) ->
  _fetch_evidence_for_claim claim_id (w, tr) = (r, (w', tr')) ->
  exists ext, tr' = tr ++ ext /\
    _fetch_evidence_for_claim claim_id (w1, tr1) = (r, (w1, tr1 ++ ext)).
Proof.
  intros Hid Hev. unfold _fetch_evidence_for_claim.
  destruct (getEvidenceIdsForClaim w claim_id) as [ids |] eqn:E.
  - rewrite (bind_perform (c_getEvidenceIdsForClaim claim_id)
               (fun w => getEvidenceIdsForClaim w claim_id) AIds _ w tr ids E).
    rewrite (bind_perform (c_getEvidenceIdsForClaim claim_id)
               (fun w => getEvidenceIdsForClaim w claim_id) AIds _ w1 tr1 ids)
      by (now rewrite Hid).
    intros X.
    destruct (fetch_loop_frame w w1 ids Hev _ _
                (tr1 ++ [(c_getEvidenceIdsForClaim claim_id, AIds ids)]) _ _ _ X)
      as (ext & -> & Y).
    exists ((c_getEvidenceIdsForClaim claim_id, AIds ids) :: ext).
    rewrite Y. split; now rewrite <- app_assoc.
  - rewrite (bind_perform_None (c_getEvidenceIdsForClaim claim_id)
               (fun w => getEvidenceIdsForClaim w claim_id) AIds _ w tr E).
    rewrite (bind_perform_None (c_getEvidenceIdsForClaim claim_id)
               (fun w => getEvidenceIdsForClaim w claim_id) AIds _ w1 tr1)
      by (now rewrite Hid).
    intros [= <- <- <-].
    now exists [(c_getEvidenceIdsForClaim claim_id, ARaised ExternalStoreError)].
Qed.

(** The sibling of C7 in [dynamic_claim_flow.py]: on a store that keeps what
    is submitted, accepts it again and leaves the registry alone, the step
    run twice in succession fetches the same snapshot, submits the same pair
    and reads it back, both times. *)
Lemma dynamic_commit_idempotent bn claim_id (w : W) tr evidence w0 tr0 w1 tr1 :
  read_after_write 8 5 6 ->
  resubmission_allowed ->
  registry_untouched ->
  evidence <> ∅ ->
  _fetch_evidence_for_claim claim_id (w, tr) = (Ok evidence, (w0, tr0)) ->
  _compute_and_commit_posterior bn claim_id (w, tr) = (Ok tt, (w1, tr1)) ->
  exists p a b row1 row2 w2 reads,
    tr0 = tr ++ reads /\
    tr1 = tr0 ++ commit_events claim_id evidence p a b row1 /\
    _compute_and_commit_posterior bn claim_id (w1, tr1) =
      (Ok tt, (w2, (tr1 ++ reads) ++ commit_events claim_id evidence p a b row2)) /\
    (row1 !! 5%nat = Some (PyInt a) /\ row1 !! 6%nat = Some (PyInt b)) /\
    (row2 !! 5%nat = Some (PyInt a) /\ row2 !! 6%nat = Some (PyInt b)).
Proof.
  intros Hrw Hre Hun Hne Hf X.
  destruct (commit_inv _ _ _ _ _ _ _ _ _ Hf Hne X)
    as (p & a & b & row1 & fields & Hp & Ha & Hb & Hs & Hc & Hu & H1 & H2 & ->).
  pose proof (fetch_read_only claim_id _ _ _ _ _ Hf) as ->.
  destruct (Hun _ _ _ Hs) as (Hid & Hev).
  destruct (fetch_frame claim_id w w1 tr
              (tr0 ++ commit_events claim_id evidence p a b row1) _ _ _ (Hid claim_id) Hev Hf)
    as (reads & -> & Hf2).
  destruct (Hrw _ _ _ _ _ Hs) as (row1' & Hc' & _ & L5 & L6).
  rewrite Hc in Hc'. injection Hc' as <-.
  destruct (unpack_claim_row_lookup _ _ Hu) as (_ & U5 & U6).
  rewrite L5 in U5. injection U5 as U5. rewrite L6 in U6. injection U6 as U6.
  rewrite <- U5 in H1. rewrite <- U6 in H2.
  destruct (Hre _ _ _ Hs) as (w2 & Hs2).
  destruct (Hrw _ _ _ _ _ Hs2) as (row2 & Hc2 & Hl & M5 & M6).
  exists p, a, b, row1, row2, w2, reads.
  split; [reflexivity | split; [reflexivity | split; [| now repeat split]]].
  refine (commit_run bn claim_id w1 _ w1 _
            evidence p a b w2 row2 (PyInt a, PyInt b) Hf2 Hne Hp Ha Hb Hs2 Hc2 _ H1 H2).
  now apply lookup_unpack_claim_row.
Qed.

(** The siblings of C2: the body of a stage and the single-shot [main] end
    with the exceptions of their calls, of the engine and of their
    conversions, and with no other. *)
Lemma stage_body_raises bn claim_id evidence :
  raises (fun e => commit_error e \/ exists evidence, bn evidence = Raise e)
         (stage_body (W:=W) bn claim_id evidence).
Proof.
  unfold stage_body.
  apply raises_bind; [apply raises_infer_with; eauto | intros p].
  apply raises_bind;
    [apply raises_lift; intros e X; left; exact (scale_posterior_raises _ _ X) | intros a].
  apply raises_bind;
    [apply raises_lift; intros e X; left; exact (scale_posterior_raises _ _ X) | intros b].
  apply raises_bind; [apply raises_transact; left; red; tauto | intros _].
  apply raises_bind; [apply raises_perform; left; red; tauto | intros row].
  apply raises_bind;
    [apply raises_lift; intros e X; left; apply py_index_raises in X; red; tauto | intros c1].
  apply raises_bind;
    [apply raises_lift; intros e X; left; apply py_index_raises in X; red; tauto | intros c2].
  apply raises_bind;
    [apply raises_lift; intros e X; left; exact (py_div_SCALE_raises _ _ X) | intros q1].
  apply raises_bind;
    [apply raises_lift; intros e X; left; exact (py_div_SCALE_raises _ _ X) | intros q2].
  apply raises_ret.
Qed.

End DynamicCommit.

(** ** The properties at work on the sample ledgers *)

Import Samples.

Example sample_inference : sample_bn sample_evidence = Ok sample_posterior.
Proof. reflexivity. Qed.

Example round_ties :
  py_round 0.5 = Ok 0 /\ py_round 1.5 = Ok 2 /\ py_round 2.5 = Ok 2 /\
  py_round (-0.5) = Ok 0 /\ py_round (-1.5) = Ok (-2) /\ py_round 39062.5 = Ok 39062.
Proof. repeat split; reflexivity. Qed.

Example descale_values :
  descale 500000 = Ok 0.5%float /\ descale 0 = Ok 0%float /\
  descale 1000000 = Ok 1%float /\ descale 15625 = Ok 0.015625%float.
Proof. repeat split; reflexivity. Qed.

Lemma sample_registry_answers :
  registry_answers (chain:=controller_chain) sample 7 [0; 1] sample_rows.
Proof. split; [reflexivity | repeat constructor]. Defined.



Example repeated_snapshot :
  fst (run (_fetch_evidence_for_claim (chain:=controller_chain) 7) repeated) =
    Ok (<["PC" := 0]> (<["GPS" := 0]> ∅)) /\
  last_value 0 repeated_rows = Some 0 /\
  last_value 1 repeated_rows = Some 0 /\
  last_value 2 repeated_rows = None.
Proof. repeat split; reflexivity. Qed.

Lemma piece_beyond_vocabulary_is_skipped_witness :
  fold_piece sample_evidence (piece 1 7 4 1) = Ok sample_evidence /\
  fold_pieces sample_evidence (piece 1 7 4 1 :: sample_rows) =
  fold_pieces sample_evidence sample_rows.
Proof.
  apply (piece_beyond_vocabulary_is_skipped sample_evidence (piece 1 7 4 1) sample_rows).
  simpl. lia.
Defined.

(** C6, as stated, fails. A registry holds a piece of index 4 for claim 7:
    the fold ends normally, without a [TopologyMismatchError], and its
    snapshot is that of the other piece alone. *)
Lemma piece_of_index_4_raises_nothing :
  ev_evidenceIndex (piece 1 7 4 1) = 4 /\
  fold_piece (<["GPS" := 1]> ∅) (piece 1 7 4 1) = Ok (<["GPS" := 1]> ∅) /\
  run (_fetch_evidence_for_claim (chain:=controller_chain) 7) drifted =
    (Ok (<["GPS" := 1]> ∅), (drifted, fetch_reads 7 [0; 1] drifted_rows)).
Proof. repeat split; reflexivity. Qed.

Lemma snapshot_within_vocabulary_witness :
  dom sample_evidence ⊆ vocabulary_set /\
  (forall name v, sample_evidence !! name = Some v -> name ∈ EVIDENCE_NAMES) /\
  (forall priors cpts, Engine.BNOracle priors cpts sample_evidence <> Raise UnknownVariableError).
Proof.
  apply (snapshot_within_vocabulary (chain:=controller_chain) sample [] 7 sample_evidence
           (sample, fetch_reads 7 [0; 1] sample_rows)).
  reflexivity.
Defined.

Lemma empty_snapshot_commits_nothing_witness :
  _compute_and_commit_posterior (chain:=controller_chain) sample_bn 8 (sample, []) =
    (Ok tt, (sample, [(c_getEvidenceIdsForClaim 8, AIds [])])) /\
  sample = sample /\
  claims (Chain:=controller_chain) sample 8 = claims (Chain:=controller_chain) sample 8 /\
  exists ext, [(c_getEvidenceIdsForClaim 8, AIds [])] = [] ++ ext /\
              Forall (fun ev => is_evidence_read (fst ev) = true) ext.
Proof.
  apply (empty_snapshot_commits_nothing (chain:=controller_chain) sample_bn 8 sample []
           sample [(c_getEvidenceIdsForClaim 8, AIds [])]).
  reflexivity.
Defined.

Lemma sample_evidence_not_empty : sample_evidence <> ∅.
Proof. apply insert_non_empty. Defined.

Lemma commit_rereads_without_comparing_witness :
  _compute_and_commit_posterior (chain:=lossy_chain) sample_bn 7 (sample, []) =
    (Ok tt, (sample, fetch_reads 7 [0; 1] sample_rows ++
                     commit_events 7 sample_evidence sample_posterior 39062 500000
                       (controller_row 7 (0, 0)))) /\
  raises (fun e => commit_error e \/ exists evidence, sample_bn evidence = Raise e)
         (_compute_and_commit_posterior (W:=ledger) (chain:=lossy_chain) sample_bn 7).
Proof.
  apply (commit_rereads_without_comparing (chain:=lossy_chain) sample_bn 7 sample []
           sample (fetch_reads 7 [0; 1] sample_rows) sample_evidence sample_posterior
           39062 500000 sample (controller_row 7 (0, 0)) (PyInt 0, PyInt 0));
    try reflexivity.
  exact sample_evidence_not_empty.
Defined.

(** C2, as stated, fails. On a store that drops the write, the step submits
    [(39062, 500000)] for claim 7, reads back a row that holds [(0, 0)], and
    ends normally: no [CommitVerificationError]. *)
Lemma commit_ignores_mismatch :
  run (_compute_and_commit_posterior (chain:=lossy_chain) sample_bn 7) sample =
    (Ok tt, (sample, fetch_reads 7 [0; 1] sample_rows ++
                     [(bn_infer sample_evidence, APosterior sample_posterior);
                      (tx_submitInference [7; 39062; 500000], AReceipt);
                      (c_claims 7, ATuple (controller_row 7 (0, 0)))])) /\
  unpack_claim_row (controller_row 7 (0, 0)) = Ok (PyInt 0, PyInt 0) /\
  (0 =? 39062) = false.
Proof. repeat split; reflexivity. Qed.




(** ** The single-shot driver *)

Import DriverSpec.

Section DriverFacts.






End DriverFacts.

Section DriverRuns.

Context {W : Type} {chain : Chain W}.





End DriverRuns.


Example driver_run :
  snd (snd (run (main (chain:=controller_chain) Engine.BNOracle [("--gps", 1)]) sample)) =
    reads_of 500000 500000 sample_cpt ++
    [(bn_infer (evidence_of {| gps := 1; pc := 0; pmd := 0; pr := 0 |}),
      APosterior {| PPH := 0.4609375; PPR := 0.5 |});
     (tx_submitInference [1; 0; 0; 0; 460938; 500000], AReceipt);
     (c_lastEvidenceId, AInt 0);
     (c_getEvidence 0, ATuple (map PyInt [1; 0; 0; 0; 460938; 500000]))].
Proof. vm_compute. reflexivity. Qed.

Lemma ledger_chain_untouched row applies :
  registry_untouched (chain:=ledger_chain row applies).
Proof.
  intros w w' args. simpl.
  repeat (destruct args as [| ? args]; try discriminate);
    intros [= <-]; destruct applies; split; reflexivity.
Qed.

(** The step of [dynamic_claim_flow.py] run twice on the sample ledger: the
    same pair is submitted and read back both times. *)
Example dynamic_commit_twice :
  exists w1 tr1 w2,
    run (_compute_and_commit_posterior (chain:=controller_chain) sample_bn 7) sample =
      (Ok tt, (w1, tr1)) /\
    _compute_and_commit_posterior (chain:=controller_chain) sample_bn 7 (w1, tr1) =
      (Ok tt, (w2, (tr1 ++ fetch_reads 7 [0; 1] sample_rows) ++
                   commit_events 7 sample_evidence sample_posterior 39062 500000
                     (controller_row 7 (39062, 500000)))) /\
    claims (Chain:=controller_chain) w1 7 = Some (controller_row 7 (39062, 500000)) /\
    claims (Chain:=controller_chain) w2 7 = Some (controller_row 7 (39062, 500000)).
Proof. do 3 eexists. repeat split; reflexivity. Qed.

(** * Further properties of the scripts *)

(** ** The conversion to fixed point *)

Section ScaleOrder.

Lemma nearest_even_bounds n q :
  nearest_even n q -> (inject_Z n - (1 # 2) <= q <= inject_Z n + (1 # 2))%Q.
Proof.
  intros [H _]. apply Qabs_Qle_condition in H. destruct H as [L U]. split; lra.
Qed.

Lemma nearest_even_tie_below n q :
  nearest_even n q -> (q == inject_Z n - (1 # 2))%Q -> Z.even n = true.
Proof.
  intros [_ H] E. apply H. rewrite E.
  assert (X : (inject_Z n - (inject_Z n - (1 # 2)) == 1 # 2)%Q) by ring.
  rewrite X. reflexivity.
Qed.

Lemma nearest_even_tie_above n q :
  nearest_even n q -> (q == inject_Z n + (1 # 2))%Q -> Z.even n = true.
Proof.
  intros [_ H] E. apply H. rewrite E.
  assert (X : (inject_Z n - (inject_Z n + (1 # 2)) == - (1 # 2))%Q) by ring.
  rewrite X. reflexivity.
Qed.

(** Rounding to nearest, ties to even, keeps the order. *)
Lemma nearest_even_monotone n1 q1 n2 q2 :
  nearest_even n1 q1 -> nearest_even n2 q2 -> (q1 <= q2)%Q -> n1 <= n2.
Proof.
  intros H1 H2 Hq.
  destruct (Z.le_gt_cases n1 n2) as [L | G]; [exact L | exfalso].
  pose proof (nearest_even_bounds _ _ H1) as [L1 U1].
  pose proof (nearest_even_bounds _ _ H2) as [L2 U2].
  assert (Hn : (inject_Z n2 + 1 <= inject_Z n1)%Q).
  { change 1%Q with (inject_Z 1). rewrite <- inject_Z_plus, <- Zle_Qle. lia. }
  assert (E1 : (q1 == inject_Z n1 - (1 # 2))%Q) by (apply Qle_antisym; lra).
  assert (E2 : (q2 == inject_Z n2 + (1 # 2))%Q) by (apply Qle_antisym; lra).
  assert (En : (inject_Z n1 == inject_Z n2 + 1)%Q) by (apply Qle_antisym; lra).
  assert (En' : n1 = n2 + 1).
  { unfold Qeq, Qplus, inject_Z in En. simpl in En. lia. }
  pose proof (nearest_even_tie_below _ _ H1 E1) as Ev1.
  pose proof (nearest_even_tie_above _ _ H2 E2) as Ev2.
  rewrite En', Z.even_add, Ev2 in Ev1. discriminate.
Qed.

(** X1. The conversion keeps the order of the products: of two components
    that both convert, the one whose product with [SCALE] is not the larger
    does not get the larger fixed-point value. *)
Theorem scale_posterior_monotone p1 p2 n1 n2 :
  scale_posterior p1 = Ok n1 ->
  scale_posterior p2 = Ok n2 ->
  (float_value (p1 * SCALE_float) <= float_value (p2 * SCALE_float))%Q ->
  n1 <= n2.
Proof.
  intros E1 E2 Hq.
  apply py_round_nearest in E1. apply py_round_nearest in E2.
  exact (nearest_even_monotone _ _ _ _ E1 E2 Hq).
Qed.

Lemma scale_posterior_monotone_witness :
  scale_posterior 0x1.5555555555555p-2 = Ok 333333 /\
  scale_posterior 0.5 = Ok 500000 /\
  333333 <= 500000.
Proof.
  split; [reflexivity | split; [reflexivity |]].
  apply (scale_posterior_monotone 0x1.5555555555555p-2 0.5 333333 500000);
    [reflexivity | reflexivity |].
  vm_compute. discriminate.
Defined.

(** X2. A product with [SCALE] that is a whole number is submitted as that
    number: nothing is lost on the values the fixed-point grid holds
    exactly. *)
Theorem scale_posterior_exact_on_integers p n k :
  scale_posterior p = Ok n ->
  (float_value (p * SCALE_float) == inject_Z k)%Q ->
  n = k.
Proof.
  intros E Hk. apply py_round_nearest in E.
  pose proof (nearest_even_bounds _ _ E) as [L U]. rewrite Hk in L, U.
  assert (L' : (inject_Z n <= inject_Z k + (1 # 2))%Q) by lra.
  assert (U' : (inject_Z k <= inject_Z n + (1 # 2))%Q) by lra.
  unfold Qle, Qplus, inject_Z in L', U'. simpl in L', U'. lia.
Qed.

Lemma scale_posterior_exact_on_integers_witness :
  (float_value (0.015625 * SCALE_float) == inject_Z 15625)%Q /\
  match scale_posterior 0.015625 with Ok n => n = 15625 | Raise _ => False end.
Proof.
  split; [reflexivity |].
  destruct (scale_posterior 0.015625) as [n |] eqn:E; [| discriminate].
  apply (scale_posterior_exact_on_integers 0.015625 n 15625 E). reflexivity.
Defined.

End ScaleOrder.

(** ** More on the loader *)

Section LoaderAlways.

Context {W : Type} {chain : Chain W}.

Lemma at_most_weaken {A} n k (m : M W A) : (n <= k)%nat -> at_most n m -> at_most k m.
Proof.
  intros Hn Hm w tr r w' tr' X. destruct (Hm _ _ _ _ _ X) as (ext & -> & L).
  exists ext. split; [reflexivity | lia].
Qed.

Lemma at_most_ret {A} (a : A) : at_most 0 (ret a : M W A).
Proof. intros w tr r w' tr' [= <- <- <-]. exists []. now rewrite app_nil_r. Qed.

Lemma at_most_lift {A} (r : result A) : at_most 0 (lift r : M W A).
Proof. intros w tr r' w' tr' [= <- <- <-]. exists []. now rewrite app_nil_r. Qed.

Lemma at_most_perform {A} c (f : W -> option A) ans : at_most 1 (perform c f ans).
Proof.
  intros w tr r w' tr'. unfold perform.
  destruct (f w); intros [= <- <- <-]; eexists; split; eauto.
Qed.



Lemma at_most_bind {A B} n k (m : M W A) (f : A -> M W B) :
  at_most n m -> (forall a, at_most k (f a)) -> at_most (n + k) (bind m f).
Proof.
  intros Hm Hf w tr r w' tr'. unfold bind.
  destruct (m (w, tr)) as [[a | e] [w1 tr1]] eqn:E1; intros E.
  - destruct (Hm _ _ _ _ _ E1) as (x1 & -> & L1).
    destruct (Hf a _ _ _ _ _ E) as (x2 & -> & L2).
    exists (x1 ++ x2). split; [now rewrite app_assoc | rewrite length_app; lia].
  - injection E as <- <- <-. destruct (Hm _ _ _ _ _ E1) as (x1 & -> & L1).
    exists x1. split; [reflexivity | lia].
Qed.

Lemma at_most_for_each {A B} k (l : list A) (body : B -> A -> M W B) b :
  (forall b a, at_most k (body b a)) -> at_most (length l * k) (for_each l body b).
Proof.
  intros Hb. revert b. induction l as [| a l IH]; intros b; simpl.
  - apply at_most_ret.
  - apply at_most_bind; auto.
Qed.

Lemma fill_table_at_most i table : at_most 4 (fill_table (W:=W) i table).
Proof.
  unfold fill_table.
  apply (at_most_for_each 2 [0; 1]). intros t pph.
  apply (at_most_for_each 1 [0; 1]). intros t' ppr.
  apply (at_most_bind 1 0); [apply at_most_perform | intros scaled].
  apply (at_most_bind 0 0); [apply at_most_lift | intros v; apply at_most_ret].
Qed.

Lemma load_at_most : at_most 18 (load_priors_and_cpts_from_chain (W:=W)).
Proof.
  unfold load_priors_and_cpts_from_chain.
  apply (at_most_bind 1 17); [apply at_most_perform | intros raw_pph].
  apply (at_most_bind 0 17); [apply at_most_lift | intros prior_pph].
  apply (at_most_bind 1 16); [apply at_most_perform | intros raw_ppr].
  apply (at_most_bind 0 16); [apply at_most_lift | intros prior_ppr].
  apply (at_most_bind 16 0); [| intros cpts; apply at_most_ret].
  apply (at_most_for_each 4 idx_to_name). intros cpts [ev_idx name].
  apply (at_most_bind 4 0); [apply fill_table_at_most | intros t; apply at_most_ret].
Qed.

(** X3. Whatever the store answers, the loader only reads the parameter
    store: it leaves the chain as it found it, makes at most 18 calls, all of
    them reads of a prior or of a CPT cell, and when it fails it fails with
    the failure of a call or with an overflow of a quotient, returning no
    model. *)
Theorem loader_only_reads (w : W) tr r w' tr' :
  load_priors_and_cpts_from_chain (w, tr) = (r, (w', tr')) ->
  w' = w /\
  (exists ext, tr' = tr ++ ext /\
               (length ext <= 18)%nat /\
               Forall (fun ev => is_cpt_read (fst ev) = true) ext) /\
  (forall e, r = Raise e -> loader_error e).
Proof.
  intros X. split; [exact (load_read_only _ _ _ _ _ X) | split].
  - destruct (load_at_most _ _ _ _ _ X) as (ext & -> & L).
    destruct (load_emits _ _ _ _ _ X) as (ext' & E & F).
    apply app_inv_head in E. subst ext'. now exists ext.
  - intros e ->. exact (load_raises _ _ _ X).
Qed.

End LoaderAlways.

(** ** More on the fold of the evidence *)

Section FoldAlways.

Context {W : Type} {chain : Chain W}.

Lemma fold_pieces_app acc rows more :
  fold_pieces acc (rows ++ more) =
  match fold_pieces acc rows with
  | Ok acc' => fold_pieces acc' more
  | Raise e => Raise e
  end.
Proof.
  revert acc. induction rows as [| r rows IH]; intros acc; simpl; [reflexivity |].
  destruct (fold_piece acc r) as [acc' | e]; [apply IH | reflexivity].
Qed.

Lemma fold_piece_grows acc ev acc' :
  fold_piece acc ev = Ok acc' -> dom acc ⊆ dom acc'.
Proof.
  unfold fold_piece. destruct (_ <? _); [| now intros [= <-]].
  destruct (py_index _ _) as [name |]; [| discriminate].
  intros [= <-]. rewrite dom_insert. apply union_subseteq_r.
Qed.

Lemma fold_pieces_grows rows : forall acc acc',
  fold_pieces acc rows = Ok acc' -> dom acc ⊆ dom acc'.
Proof.
  induction rows as [| r rows IH]; intros acc acc'; simpl.
  - now intros [= <-].
  - destruct (fold_piece acc r) as [acc1 |] eqn:E; [| discriminate].
    intros X. transitivity (dom acc1); [exact (fold_piece_grows _ _ _ E) | exact (IH _ _ X)].
Qed.

(** X4. Evidence only accumulates. When rows are appended to the registry
    of a claim, the snapshot fetched afterwards is the fold of the new rows
    over the snapshot fetched before, and every variable the earlier
    snapshot knew is still known. *)
Theorem fetch_accumulates (w1 w2 : W) tr1 tr2 claim_id ids1 ids2 rows more s2 :
  registry_answers w1 claim_id ids1 rows ->
  registry_answers w2 claim_id ids2 (rows ++ more) ->
  fold_pieces ∅ (rows ++ more) = Ok s2 ->
  exists s1,
    fst (_fetch_evidence_for_claim claim_id (w1, tr1)) = Ok s1 /\
    fst (_fetch_evidence_for_claim claim_id (w2, tr2)) = Ok s2 /\
    fold_pieces s1 more = Ok s2 /\
    dom s1 ⊆ dom s2.
Proof.
  intros H1 H2 Hf. rewrite fold_pieces_app in Hf.
  destruct (fold_pieces ∅ rows) as [s1 |] eqn:E1; [| discriminate].
  exists s1. split; [| split; [| split]].
  - now rewrite (fetch_run w1 tr1 claim_id ids1 rows s1 H1 E1).
  - rewrite (fetch_run w2 tr2 claim_id ids2 (rows ++ more) s2 H2); [reflexivity |].
    now rewrite fold_pieces_app, E1.
  - exact Hf.
  - exact (fold_pieces_grows _ _ _ Hf).
Qed.

(** X5. What the loop body does on one piece, by the index it carries: below
    -4 it raises [IndexError]; from -4 to -1 the index counts from the end of
    the names, as Python subscripts do; from 0 to 3 it names the variable;
    from 4 on the piece is skipped. The value is stored as it is. *)
Theorem fold_piece_by_index (evidence_values : gmap string Z) ev :
  fold_piece evidence_values ev =
  let idx := ev_evidenceIndex ev in
  if idx <? -4 then Raise IndexError
  else if idx <? 0
       then Ok (<[EVIDENCE_NAMES !!! Z.to_nat (idx + 4) := ev_value ev]> evidence_values)
  else if idx <? 4
       then Ok (<[EVIDENCE_NAMES !!! Z.to_nat idx := ev_value ev]> evidence_values)
  else Ok evidence_values.
Proof.
  cbv zeta.
  destruct (Z.ltb_spec (ev_evidenceIndex ev) (-4)) as [L4 | G4].
  { unfold fold_piece, py_index. simpl length.
    destruct (Z.ltb_spec (ev_evidenceIndex ev) (Z.of_nat 4)) as [_ | X]; [| lia].
    destruct (Z.ltb_spec (ev_evidenceIndex ev) 0) as [_ | X]; [| lia].
    destruct (Z.leb_spec 0 (ev_evidenceIndex ev + Z.of_nat 4)) as [X | _]; [lia |].
    reflexivity. }
  destruct (Z.ltb_spec (ev_evidenceIndex ev) 0) as [L0 | G0].
  { assert (C : ev_evidenceIndex ev = -4 \/ ev_evidenceIndex ev = -3 \/
                ev_evidenceIndex ev = -2 \/ ev_evidenceIndex ev = -1) by lia.
    unfold fold_piece. destruct C as [-> | [-> | [-> | ->]]]; reflexivity. }
  destruct (Z.ltb_spec (ev_evidenceIndex ev) 4) as [L | G].
  - destruct (fold_piece_in_range evidence_values ev ltac:(lia)) as (name & Hn & ->).
    now rewrite (list_lookup_total_correct _ _ _ Hn).
  - now apply fold_piece_skips.
Qed.



End FoldAlways.

Section FetchAux.

Context {W : Type} {chain : Chain W}.

Lemma fetch_only_reads_aux claim_id (w : W) tr r w' tr' :
  _fetch_evidence_for_claim claim_id (w, tr) = (r, (w', tr')) ->
  w' = w /\
  exists ext, tr' = tr ++ ext /\ Forall (fun ev => is_evidence_read (fst ev) = true) ext.
Proof.
  intros X. split; [exact (fetch_read_only claim_id _ _ _ _ _ X) |].
  exact (fetch_emits claim_id _ _ _ _ _ X).
Qed.

End FetchAux.

(** ** More on the commit *)

Section CommitAlways.

Context {W : Type} {chain : Chain W}.

Lemma Forall_not_submission_reads ext :
  Forall (fun ev => is_evidence_read (fst ev) = true) ext ->
  Forall (fun ev => is_accepted_submission ev = false) ext.
Proof.
  intros F. eapply Forall_impl; [exact F |].
  intros [c a] Hc. simpl in Hc.
  destruct c; try discriminate; reflexivity.
Qed.

(** X7. The step changes the chain by one accepted submission or not at
    all. Either the chain is left as it was and the trace holds no accepted
    submission (empty snapshot, or a failure of the fetch, of the engine, of
    a conversion or of the submission itself); or the snapshot fetched was
    not empty, the engine answered, both components converted, and the chain
    is the one the store gave for the submission of that pair for that
    claim. A posterior of which one component does not convert is not
    submitted in part. *)
Theorem commit_changes_chain_by_one_submission bn claim_id (w : W) tr r w' tr' :
  _compute_and_commit_posterior bn claim_id (w, tr) = (r, (w', tr')) ->
  (w' = w /\
   exists ext, tr' = tr ++ ext /\ Forall (fun ev => is_accepted_submission ev = false) ext) \/
  (exists evidence p a b,
     fst (_fetch_evidence_for_claim claim_id (w, tr)) = Ok evidence /\
     evidence <> ∅ /\
     bn evidence = Ok p /\
     scale_posterior (PPH p) = Ok a /\
     scale_posterior (PPR p) = Ok b /\
     submitInference w [claim_id; a; b] = Some w').
Proof.
  unfold _compute_and_commit_posterior, bind at 1.
  destruct (_fetch_evidence_for_claim claim_id (w, tr)) as [[evidence | e0] [w0 tr0]] eqn:Hf.
  2:{ intros [= <- <- <-]. left.
      destruct (fetch_only_reads_aux claim_id _ _ _ _ _ Hf) as (-> & ext & -> & F).
      split; [reflexivity |]. exists ext. split; [reflexivity |].
      now apply Forall_not_submission_reads. }
  destruct (fetch_only_reads_aux claim_id _ _ _ _ _ Hf) as (-> & reads & -> & F).
  apply Forall_not_submission_reads in F.
  destruct (bool_decide_reflect (evidence = ∅)) as [He | Hne].
  { intros [= <- <- <-]. left. split; [reflexivity |]. now exists reads. }
  unfold bind at 1, infer_with.
  destruct (bn evidence) as [p | e1] eqn:Hp.
  2:{ intros [= <- <- <-]. left. split; [reflexivity |].
      exists (reads ++ [(bn_infer evidence, ARaised e1)]).
      split; [now rewrite app_assoc |].
      apply Forall_app. split; [exact F | now repeat constructor]. }
  unfold bind at 1, lift.
  destruct (scale_posterior (PPH p)) as [a | e2] eqn:Ha.
  2:{ intros [= <- <- <-]. left. split; [reflexivity |].
      exists (reads ++ [(bn_infer evidence, APosterior p)]).
      split; [now rewrite app_assoc |].
      apply Forall_app. split; [exact F | now repeat constructor]. }
  unfold bind at 1.
  destruct (scale_posterior (PPR p)) as [b | e3] eqn:Hb.
  2:{ intros [= <- <- <-]. left. split; [reflexivity |].
      exists (reads ++ [(bn_infer evidence, APosterior p)]).
      split; [now rewrite app_assoc |].
      apply Forall_app. split; [exact F | now repeat constructor]. }
  unfold bind at 1, transact.
  destruct (submitInference w [claim_id; a; b]) as [w1 |] eqn:Hs.
  2:{ intros [= <- <- <-]. left. split; [reflexivity |].
      exists (reads ++ [(bn_infer evidence, APosterior p);
                        (tx_submitInference [claim_id; a; b], ARaised ExternalStoreError)]).
      split; [now rewrite <- !app_assoc |].
      apply Forall_app. split; [exact F | now repeat constructor]. }
  intros X. right. exists evidence, p, a, b.
  assert (Hw : w' = w1).
  { revert X.
    assert (RO : read_only
              (let! claim_row := perform (c_claims claim_id) (fun w => claims w claim_id) ATuple in
               let! fields := lift (unpack_claim_row claim_row) in
               let! _ := lift (py_div_SCALE (fst fields)) in
               let! _ := lift (py_div_SCALE (snd fields)) in
               ret tt)).
    { apply read_only_bind; [apply read_only_perform | intros row].
      repeat (apply read_only_bind; [apply read_only_lift | intros ?]).
      apply read_only_ret. }
    intros X. exact (RO _ _ _ _ _ X). }
  subst w'. repeat (split; [assumption || reflexivity |]). exact Hs.
Qed.

End CommitAlways.

Section CommitScope.

Context {W : Type} {chain : Chain W}.

















End CommitScope.

(** ** More on the single-shot driver *)

Section DriverAlways.

Context {W : Type} {chain : Chain W}.

Lemma store_accepts ns flag v :
  (exists ns', store ns (flag, v) = Ok ns') <-> known_binary (flag, v).
Proof.
  unfold known_binary, store. simpl.
  rewrite !elem_of_cons, elem_of_nil.
  destruct (bool_decide_reflect (v ∈ choices)) as [Hv | Hv];
    unfold choices in Hv; rewrite !elem_of_cons, elem_of_nil in Hv.
  - destruct (String.eqb_spec flag "--gps"); [split; [tauto | eauto] |].
    destruct (String.eqb_spec flag "--pc"); [split; [tauto | eauto] |].
    destruct (String.eqb_spec flag "--pmd"); [split; [tauto | eauto] |].
    destruct (String.eqb_spec flag "--pr"); [split; [tauto | eauto] |].
    split; [intros (ns' & X); discriminate | tauto].
  - split; [intros (ns' & X); discriminate | tauto].
Qed.

Lemma store_raises ns opt e : store ns opt = Raise e -> e = SystemExit.
Proof.
  destruct opt as [flag v]. unfold store.
  repeat (destruct (_ : bool); try discriminate); now intros [= <-].
Qed.

Lemma parse_from_accepts argv : forall ns,
  (exists args, parse_from ns argv = Ok args) <-> Forall known_binary argv.
Proof.
  induction argv as [| [flag v] argv IH]; intros ns; cbn [parse_from].
  - split; [constructor | eauto].
  - rewrite Forall_cons, <- (store_accepts ns flag v).
    destruct (store ns (flag, v)) as [ns' | e].
    + rewrite (IH ns'). split; [eauto | tauto].
    + split; [intros (args & X); discriminate | intros ((ns' & X) & _); discriminate].
Qed.

Lemma parse_from_raises argv : forall ns e, parse_from ns argv = Raise e -> e = SystemExit.
Proof.
  induction argv as [| opt argv IH]; intros ns e; cbn [parse_from]; [discriminate |].
  destruct (store ns opt) as [ns' | e'] eqn:S; [apply IH |].
  intros [= <-]. exact (store_raises _ _ _ S).
Qed.

(** On options already resolved to their flags and values, the parser
    accepts a command line exactly when every option on it is one of
    [--gps], [--pc], [--pmd], [--pr] with the value 0 or 1; any other ends
    the run with [SystemExit], and with nothing else. *)
Lemma parse_args_accepts_known_binary argv :
  ((exists args, parse_args argv = Ok args) <-> Forall known_binary argv) /\
  (forall e, parse_args argv = Raise e -> e = SystemExit).
Proof.
  split; [apply parse_from_accepts | apply parse_from_raises].
Qed.



End DriverAlways.

(** ** Filling the store *)

Section FillFacts.

Import FillCpts.

Context {W : Type} {writer : CptWriter W}.

Lemma fbind_Done {A B} (m : F W A) (k : A -> F W B) w a w1 :
  m w = (Done a, w1) -> fbind m k w = k a w1.
Proof. unfold fbind. now intros ->. Qed.

Lemma fbind_Failed {A B} (m : F W A) (k : A -> F W B) w e w1 :
  m w = (Failed e, w1) -> fbind m k w = (Failed e, w1).
Proof. unfold fbind. now intros ->. Qed.

Lemma fbind_assoc {A B C} (m : F W A) (k1 : A -> F W B) (k2 : B -> F W C) w :
  fbind (fbind m k1) k2 w = fbind m (fun a => fbind (k1 a) k2) w.
Proof. unfold fbind. now destruct (m w) as [[a | e] w1]. Qed.

Lemma fbind_ext {A B} (m : F W A) (k k' : A -> F W B) w :
  (forall a w1, k a w1 = k' a w1) -> fbind m k w = fbind m k' w.
Proof. intros H. unfold fbind. destruct (m w) as [[a | e] w1]; [apply H | reflexivity]. Qed.

Lemma run_tasks_app ts1 ts2 n (w : W) :
  run_tasks (ts1 ++ ts2) n w = fbind (run_tasks ts1 n) (run_tasks ts2) w.
Proof.
  revert n w. induction ts1 as [| [[[i mapping] pph] ppr] ts1 IH]; intros n w.
  - reflexivity.
  - cbn [app run_tasks]. rewrite fbind_assoc. apply fbind_ext. intros a w1. apply IH.
Qed.

Lemma floop_cons {A B} (a : A) l (body : B -> A -> F W B) b w :
  floop (a :: l) body b w = fbind (body b a) (fun b' => floop l body b') w.
Proof. reflexivity. Qed.

(** The two inner loops on one dict are its four cells in a row. *)
Lemma inner_loops_flat i mapping n (w : W) :
  floop [0; 1] (fun tx_count pph =>
    floop [0; 1] (fun tx_count ppr =>
      fill_cell i mapping tx_count pph ppr) tx_count) n w =
  run_tasks [(i, mapping, 0, 0); (i, mapping, 0, 1); (i, mapping, 1, 0); (i, mapping, 1, 1)] n w.
Proof.
  cbn [floop run_tasks]. unfold fbind, fret.
  destruct (fill_cell i mapping n 0 0 w) as [[n1 | e] w1]; [| reflexivity].
  destruct (fill_cell i mapping n1 0 1 w1) as [[n2 | e] w2]; [| reflexivity].
  destruct (fill_cell i mapping n2 1 0 w2) as [[n3 | e] w3]; [| reflexivity].
  destruct (fill_cell i mapping n3 1 1 w3) as [[n4 | e] w4]; reflexivity.
Qed.

Lemma outer_loop_flat (l : list (Z * gmap (Z * Z) float)) n (w : W) :
  floop l (fun tx_count '(ev_index, mapping) =>
    floop [0; 1] (fun tx_count pph =>
      floop [0; 1] (fun tx_count ppr =>
        fill_cell ev_index mapping tx_count pph ppr) tx_count) tx_count) n w =
  run_tasks (flat_map (fun '(i, mapping) =>
              [(i, mapping, 0, 0); (i, mapping, 0, 1); (i, mapping, 1, 0); (i, mapping, 1, 1)]) l)
            n w.
Proof.
  revert n w. induction l as [| [i mapping] l IH]; intros n w.
  - reflexivity.
  - rewrite floop_cons. cbn [flat_map]. rewrite run_tasks_app.
    unfold fbind. rewrite inner_loops_flat.
    destruct (run_tasks _ n w) as [[a | e] w1]; [apply IH | reflexivity].
Qed.

(** The three loops of [main] walk the sixteen cells of [tasks] in order. *)
Lemma main_flat gps pc pmd pr (w : W) :
  FillCpts.main gps pc pmd pr w = run_tasks (tasks gps pc pmd pr) 0 w.
Proof. unfold FillCpts.main, tasks. apply outer_loop_flat. Qed.

Lemma fill_cell_inv i mapping n pph ppr (w : W) r w' :
  fill_cell i mapping n pph ppr w = (r, w') ->
  match r with
  | Done n' =>
      n' = n + 1 /\
      exists wr, planned (i, mapping, pph, ppr) wr /\ apply_writes w [wr] = Some w'
  | Failed e => w' = w /\ fails_with (i, mapping, pph, ppr) w e
  end.
Proof.
  unfold fill_cell, planned, fails_with. cbn [apply_writes].
  destruct (mapping !! (pph, ppr)) as [p |] eqn:El.
  - destruct (scale_posterior p) as [v | e'] eqn:Es.
    + destruct (setEvidenceCPT w i pph ppr v) as [w1 |] eqn:Ew.
      * intros [= <- <-]. split; [reflexivity |].
        exists (i, pph, ppr, v). split; [now exists p, v | now rewrite Ew].
      * intros [= <- <-]. now repeat split.
    + intros [= <- <-]. now split.
  - intros [= <- <-]. now split.
Qed.

Lemma apply_writes_app (w : W) ws1 ws2 :
  apply_writes w (ws1 ++ ws2) = apply_writes w ws1 ≫= fun w1 => apply_writes w1 ws2.
Proof.
  revert w. induction ws1 as [| [[[i pph] ppr] v] ws1 IH]; intros w; [reflexivity |].
  cbn [app apply_writes]. destruct (setEvidenceCPT w i pph ppr v); [apply IH | reflexivity].
Qed.

(** A run of cells writes a prefix of them, each with its planned value; it
    counts them when it ends, and stops at the first cell that fails. *)
Lemma run_tasks_inv ts n (w : W) r w' :
  run_tasks ts n w = (r, w') ->
  exists ws,
    Forall2 planned (take (length ws) ts) ws /\
    apply_writes w ws = Some w' /\
    match r with
    | Done n' => n' = n + Z.of_nat (length ws) /\ length ws = length ts
    | Failed e => exists t, ts !! length ws = Some t /\ fails_with t w' e
    end.
Proof.
  revert n w. induction ts as [| [[[i mapping] pph] ppr] ts IH]; intros n w.
  - intros [= <- <-]. exists []. repeat split; [constructor | simpl; lia].
  - cbn [run_tasks]. unfold fbind.
    destruct (fill_cell i mapping n pph ppr w) as [[n1 | e] w1] eqn:E;
      apply fill_cell_inv in E.
    + destruct E as (-> & wr & Hp & Hw). intros X.
      destruct (IH _ _ X) as (ws & Hf & Ha & Hr).
      exists (wr :: ws). split; [| split].
      * cbn [length take]. now constructor.
      * change (wr :: ws) with ([wr] ++ ws). rewrite apply_writes_app, Hw. exact Ha.
      * destruct r as [n' | e].
        -- destruct Hr as [-> Hl]. cbn [length]. split; lia.
        -- destruct Hr as (t & Ht & Hfail). exists t. now split.
    + destruct E as [-> Hfail]. intros [= <- <-].
      exists []. split; [constructor | split; [reflexivity |]].
      exists (i, mapping, pph, ppr). now split.
Qed.

(** X11. Whatever the four dicts and the store, a run of [fill_cpts.main]
    writes a prefix of the sixteen cells, in the order variable, PPH, PPR,
    each with [round(p * SCALE)] of its dict entry. When it ends normally
    the prefix is the whole and the count it prints is 16. When it ends
    with an exception, the cells before the failing one stay written (there
    is no rollback), and the exception is the [KeyError] of a missing
    entry, the error of the conversion, or the failure of the send. *)
Theorem fill_writes_a_prefix_in_order gps pc pmd pr (w : W) r w' :
  FillCpts.main gps pc pmd pr w = (r, w') ->
  exists ws,
    Forall2 planned (take (length ws) (tasks gps pc pmd pr)) ws /\
    apply_writes w ws = Some w' /\
    match r with
    | Done n => n = 16 /\ length ws = 16%nat
    | Failed e =>
        (length ws < 16)%nat /\
        exists t, tasks gps pc pmd pr !! length ws = Some t /\ fails_with t w' e
    end.
Proof.
  rewrite main_flat. intros X.
  destruct (run_tasks_inv _ _ _ _ _ X) as (ws & Hf & Ha & Hr).
  exists ws. split; [exact Hf | split; [exact Ha |]].
  destruct r as [n | e].
  - destruct Hr as [-> Hl]. change (length (tasks gps pc pmd pr)) with 16%nat in Hl.
    split; [lia | exact Hl].
  - destruct Hr as (t & Ht & Hfail). split; [| now exists t].
    apply lookup_lt_Some in Ht. exact Ht.
Qed.

(** A run of cells that all have a planned write the store takes. *)
Lemma run_tasks_complete ts ws n (w w' : W) :
  Forall2 planned ts ws ->
  apply_writes w ws = Some w' ->
  run_tasks ts n w = (Done (n + Z.of_nat (length ts)), w').
Proof.
  intros Hf. revert n w. induction Hf as [| [[[i mapping] pph] ppr] wr ts ws Hp Hf IH];
    intros n w Ha.
  - injection Ha as <-. cbn. unfold fret. do 2 f_equal. lia.
  - destruct Hp as (p & v & El & Es & ->). cbn [apply_writes] in Ha.
    destruct (setEvidenceCPT w i pph ppr v) as [w1 |] eqn:Ew; [| discriminate].
    cbn [run_tasks].
    rewrite (fbind_Done _ _ w (n + 1) w1).
    + rewrite (IH _ _ Ha). do 2 f_equal. cbn [length]. lia.
    + unfold fill_cell. now rewrite El, Es, Ew.
Qed.

(** X12. When each of the four dicts has the four entries it is asked for,
    each entry scales to an integer, and the store takes the sixteen
    writes, [fill_cpts.main] ends normally, with the count 16 and the chain
    the sixteen writes lead to. *)
Theorem fill_completes gps pc pmd pr ws (w w' : W) :
  Forall2 planned (tasks gps pc pmd pr) ws ->
  apply_writes w ws = Some w' ->
  FillCpts.main gps pc pmd pr w = (Done 16, w').
Proof.
  intros Hf Ha. rewrite main_flat.
  now rewrite (run_tasks_complete _ _ 0 _ _ Hf Ha).
Qed.

End FillFacts.

(** ** Filling, then loading *)

Section FillLoad.

Import FillCpts.

Context {W : Type} {chain : Chain W} {writer : CptWriter W}.

Lemma apply_writes_frame (K : store_keeps_cells) ws (w w' : W) :
  apply_writes w ws = Some w' ->
  priorPPH w' = priorPPH w /\
  priorPPR w' = priorPPR w /\
  forall i pph ppr, (i, pph, ppr) ∉ map write_key ws ->
    getEvidenceTrueCPT w' i pph ppr = getEvidenceTrueCPT w i pph ppr.
Proof.
  revert w. induction ws as [| [[[j qph] qpr] v] ws IH]; intros w.
  - now intros [= <-].
  - cbn [apply_writes].
    destruct (setEvidenceCPT w j qph qpr v) as [w1 |] eqn:Ew; [| discriminate].
    intros Ha. destruct (IH _ Ha) as (Hh & Hr & Hc).
    destruct (K _ _ _ _ _ _ Ew) as (_ & Kc & Kh & Kr).
    split; [congruence | split; [congruence |]].
    intros i pph ppr Hn. cbn [map write_key] in Hn.
    apply not_elem_of_cons in Hn as [Hne Hn].
    rewrite (Hc _ _ _ Hn). now apply Kc.
Qed.

(** On a store that keeps its cells, writes to distinct cells are all
    there at the end. *)
Lemma apply_writes_lookup (K : store_keeps_cells) ws (w w' : W) :
  apply_writes w ws = Some w' ->
  NoDup (map write_key ws) ->
  forall i pph ppr v, (i, pph, ppr, v) ∈ ws ->
    getEvidenceTrueCPT w' i pph ppr = Some v.
Proof.
  revert w. induction ws as [| [[[j qph] qpr] u] ws IH]; intros w Ha Hnd i pph ppr v Hin.
  - now apply elem_of_nil in Hin.
  - cbn [apply_writes] in Ha.
    destruct (setEvidenceCPT w j qph qpr u) as [w1 |] eqn:Ew; [| discriminate].
    cbn [map write_key] in Hnd. apply NoDup_cons in Hnd as [Hfresh Hnd].
    apply elem_of_cons in Hin as [[= -> -> -> ->] | Hin].
    + destruct (apply_writes_frame K _ _ _ Ha) as (_ & _ & Hc).
      rewrite (Hc _ _ _ Hfresh).
      now destruct (K _ _ _ _ _ _ Ew) as (Kv & _).
    + now apply (IH _ Ha Hnd).
Qed.

(** X13. The filler and the loader agree on the layout of the store. On a
    store that keeps the cells it is given (and leaves the priors alone),
    after a run of [fill_cpts.main] that ends normally the loader returns a
    model whose table [GPS] comes from the dict [gps], [PC] from [pc],
    [PMD] from [pmd] and [PR] from [pr]: the entry [(pph, ppr)] of each
    table is [round(p * SCALE) / SCALE] for the entry [p] of the dict at
    the same key; the priors are those of the store before the run. *)
Theorem fill_then_load_agree gps pc pmd pr (w w0 : W) n tr a b :
  store_keeps_cells ->
  (forall i pph ppr v, In i [0; 1; 2; 3] -> In pph [0; 1] -> In ppr [0; 1] ->
     getEvidenceTrueCPT w0 i pph ppr = Some v -> uint256 v) ->
  priorPPH w = Some a /\ uint256 a ->
  priorPPR w = Some b /\ uint256 b ->
  FillCpts.main gps pc pmd pr w = (Done n, w0) ->
  exists cell,
    Loader.load_priors_and_cpts_from_chain (w0, tr) =
      (Ok (priors_of a b, cpts_of cell), (w0, tr ++ reads_of a b cell)) /\
    forall i name mapping pph ppr,
      (i, name) ∈ Loader.idx_to_name ->
      [gps; pc; pmd; pr] !! Z.to_nat i = Some mapping ->
      In pph [0; 1] -> In ppr [0; 1] ->
      exists p,
        mapping !! (pph, ppr) = Some p /\
        scale_posterior p = Ok (cell i pph ppr) /\
        cpts_of cell !! name ≫= (fun table => table !! (pph, ppr)) =
          Some (true_quotient (cell i pph ppr)).
Proof.
  intros K Hu [Ea Ua] [Eb Ub] X. rewrite main_flat in X.
  destruct (run_tasks_inv _ _ _ _ _ X) as (ws & Hf & Ha & _ & Hl).
  rewrite Hl in Hf. unfold tasks, enumerate in Hf. cbn in Hf.
  repeat match goal with
         | H : Forall2 planned (_ :: _) _ |- _ =>
             apply Forall2_cons_inv_l in H as (? & ? & (? & ? & ? & ? & ->) & H & ->)
         end.
  apply Forall2_nil_inv_l in Hf as ->.
  match type of Ha with
  | apply_writes _ [(_, _, _, ?v0); (_, _, _, ?v1); (_, _, _, ?v2); (_, _, _, ?v3);
                    (_, _, _, ?v4); (_, _, _, ?v5); (_, _, _, ?v6); (_, _, _, ?v7);
                    (_, _, _, ?v8); (_, _, _, ?v9); (_, _, _, ?v10); (_, _, _, ?v11);
                    (_, _, _, ?v12); (_, _, _, ?v13); (_, _, _, ?v14); (_, _, _, ?v15)] = _ =>
      set (cell := fun i pph ppr : Z =>
             nth (Z.to_nat (4 * i + 2 * pph + ppr))
                 [v0; v1; v2; v3; v4; v5; v6; v7; v8; v9; v10; v11; v12; v13; v14; v15] 0)
  end.
  destruct (apply_writes_frame K _ _ _ Ha) as (Hh & Hr & _).
  assert (Hnd : forall (x0 x1 x2 x3 x4 x5 x6 x7 x8 x9 x10 x11 x12 x13 x14 x15 : Z),
             NoDup (map write_key
               [(0, 0, 0, x0); (0, 0, 1, x1); (0, 1, 0, x2); (0, 1, 1, x3);
                (1, 0, 0, x4); (1, 0, 1, x5); (1, 1, 0, x6); (1, 1, 1, x7);
                (2, 0, 0, x8); (2, 0, 1, x9); (2, 1, 0, x10); (2, 1, 1, x11);
                (3, 0, 0, x12); (3, 0, 1, x13); (3, 1, 0, x14); (3, 1, 1, x15)])).
  { intros. cbn [map write_key]. apply (bool_decide_unpack _). vm_compute. exact I. }
  pose proof (apply_writes_lookup K _ _ _ Ha (Hnd _ _ _ _ _ _ _ _ _ _ _ _ _ _ _ _)) as L.
  assert (Hc : cells_answer w0 cell).
  { intros i pph ppr Hi Hp Hq.
    assert (E : getEvidenceTrueCPT w0 i pph ppr = Some (cell i pph ppr)).
    { apply L. simpl in Hi, Hp, Hq.
      apply (list_elem_of_lookup_2 _ (Z.to_nat (4 * i + 2 * pph + ppr))).
      destruct Hi as [<- | [<- | [<- | [<- | []]]]], Hp as [<- | [<- | []]],
        Hq as [<- | [<- | []]]; reflexivity. }
    split; [exact E | now apply (Hu i pph ppr)]. }
  exists cell. split.
  - apply load_run.
    split; [split; [congruence | exact Ua] |].
    split; [split; [congruence | exact Ub] | exact Hc].
  - intros i name mapping pph ppr Hin Hm Hp Hq.
    destruct (cpts_of_shape cell i name Hin) as (table & -> & _ & Ht).
    cbn [mbind option_bind]. rewrite (Ht pph ppr Hp Hq).
    unfold Loader.idx_to_name in Hin. simpl in Hp, Hq.
    repeat (apply elem_of_cons in Hin as [[= -> ->] | Hin];
            [injection Hm as <-;
             destruct Hp as [<- | [<- | []]], Hq as [<- | [<- | []]];
             eexists; (split; [eassumption | split; [eassumption | reflexivity]]) |]).
    now apply elem_of_nil in Hin.
Qed.

End FillLoad.

(** ** Runs on the sample ledgers *)

Import MoreSamples.

Lemma loader_only_reads_witness :
  sample = sample /\
  (exists ext, [] ++ reads_of 500000 500000 sample_cpt = [] ++ ext /\
               (length ext <= 18)%nat /\
               Forall (fun ev => is_cpt_read (fst ev) = true) ext) /\
  (forall e, Ok (priors_of 500000 500000, cpts_of sample_cpt) = Raise e -> loader_error e).
Proof.
  apply (loader_only_reads (chain:=controller_chain) sample []
           (Ok (priors_of 500000 500000, cpts_of sample_cpt)) sample
           ([] ++ reads_of 500000 500000 sample_cpt)).
  apply load_run. exact sample_answers.
Defined.

Lemma grown_registry_answers :
  registry_answers (chain:=controller_chain) grown 7 [0; 1; 2] (sample_rows ++ [piece 2 7 2 1]).
Proof. split; [reflexivity | repeat constructor]. Defined.

Lemma fetch_accumulates_witness :
  exists s1,
    fst (_fetch_evidence_for_claim (chain:=controller_chain) 7 (sample, [])) = Ok s1 /\
    fst (_fetch_evidence_for_claim (chain:=controller_chain) 7 (grown, [])) =
      Ok (<["PMD" := 1]> sample_evidence) /\
    fold_pieces s1 [piece 2 7 2 1] = Ok (<["PMD" := 1]> sample_evidence) /\
    dom s1 ⊆ dom (<["PMD" := 1]> sample_evidence).
Proof.
  apply (fetch_accumulates (chain:=controller_chain) sample grown [] [] 7 [0; 1] [0; 1; 2]
           sample_rows [piece 2 7 2 1] (<["PMD" := 1]> sample_evidence)).
  - exact sample_registry_answers.
  - exact grown_registry_answers.
  - reflexivity.
Defined.


Lemma commit_changes_chain_by_one_submission_witness :
  (set_posterior 7 39062 500000 sample = sample /\
   exists ext,
     fetch_reads 7 [0; 1] sample_rows ++
     commit_events 7 sample_evidence sample_posterior 39062 500000
       (controller_row 7 (39062, 500000)) = [] ++ ext /\
     Forall (fun ev => is_accepted_submission ev = false) ext) \/
  (exists evidence p a b,
     fst (_fetch_evidence_for_claim (chain:=controller_chain) 7 (sample, [])) = Ok evidence /\
     evidence <> ∅ /\
     sample_bn evidence = Ok p /\
     scale_posterior (PPH p) = Ok a /\
     scale_posterior (PPR p) = Ok b /\
     submitInference (Chain:=controller_chain) sample [7; a; b] =
       Some (set_posterior 7 39062 500000 sample)).
Proof.
  apply (commit_changes_chain_by_one_submission (chain:=controller_chain) sample_bn 7 sample []
           (Ok tt) (set_posterior 7 39062 500000 sample)
           (fetch_reads 7 [0; 1] sample_rows ++
            commit_events 7 sample_evidence sample_posterior 39062 500000
              (controller_row 7 (39062, 500000)))).
  reflexivity.
Defined.




Lemma fill_writes_a_prefix_in_order_witness :
  exists ws,
    Forall2 FillCpts.planned
      (take (length ws)
            (FillCpts.tasks FillCpts.neutral FillCpts.holed FillCpts.neutral FillCpts.neutral))
      ws /\
    FillCpts.apply_writes (writer:=FillCpts.ledger_writer) sample ws = Some half_filled /\
    (length ws < 16)%nat /\
    exists t,
      FillCpts.tasks FillCpts.neutral FillCpts.holed FillCpts.neutral FillCpts.neutral
        !! length ws = Some t /\
      FillCpts.fails_with (writer:=FillCpts.ledger_writer) t half_filled
        (FillCpts.KeyError (1, 0)).
Proof.
  apply (fill_writes_a_prefix_in_order (writer:=FillCpts.ledger_writer)
           FillCpts.neutral FillCpts.holed FillCpts.neutral FillCpts.neutral sample
           (FillCpts.Failed (FillCpts.KeyError (1, 0))) half_filled).
  vm_compute. reflexivity.
Defined.

Lemma neutral_writes_planned :
  Forall2 FillCpts.planned
    (FillCpts.tasks FillCpts.neutral FillCpts.neutral FillCpts.neutral FillCpts.neutral)
    (map (fun t : FillCpts.task => (t.1.1.1, t.1.2, t.2, 500000))
         (FillCpts.tasks FillCpts.neutral FillCpts.neutral FillCpts.neutral FillCpts.neutral)).
Proof.
  repeat (constructor; [exists 0.5%float, 500000; repeat split; reflexivity |]).
  constructor.
Defined.

Lemma fill_completes_witness :
  FillCpts.main (writer:=FillCpts.ledger_writer)
    FillCpts.neutral FillCpts.neutral FillCpts.neutral FillCpts.neutral sample =
  (FillCpts.Done 16, filled).
Proof.
  apply (fill_completes (writer:=FillCpts.ledger_writer)
           FillCpts.neutral FillCpts.neutral FillCpts.neutral FillCpts.neutral
           _ sample filled neutral_writes_planned).
  vm_compute. reflexivity.
Defined.

Lemma ledger_keeps_cells :
  FillCpts.store_keeps_cells (chain:=controller_chain) (writer:=FillCpts.ledger_writer).
Proof.
  intros w w' i pph ppr v [= <-]. cbn.
  split; [now rewrite bool_decide_eq_true_2 |].
  split; [| split; reflexivity].
  intros i' pph' ppr' Hne. now rewrite bool_decide_eq_false_2.
Defined.

Lemma fill_then_load_agree_witness :
  exists cell,
    load_priors_and_cpts_from_chain (chain:=controller_chain) (filled, []) =
      (Ok (priors_of 500000 500000, cpts_of cell),
       (filled, [] ++ reads_of 500000 500000 cell)) /\
    forall i name mapping pph ppr,
      (i, name) ∈ idx_to_name ->
      [FillCpts.neutral; FillCpts.neutral; FillCpts.neutral; FillCpts.neutral] !! Z.to_nat i =
        Some mapping ->
      In pph [0; 1] -> In ppr [0; 1] ->
      exists p,
        mapping !! (pph, ppr) = Some p /\
        scale_posterior p = Ok (cell i pph ppr) /\
        cpts_of cell !! name ≫= (fun table => table !! (pph, ppr)) =
          Some (true_quotient (cell i pph ppr)).
Proof.
  apply (fill_then_load_agree (chain:=controller_chain) (writer:=FillCpts.ledger_writer)
           FillCpts.neutral FillCpts.neutral FillCpts.neutral FillCpts.neutral
           sample filled 16 [] 500000 500000).
  - exact ledger_keeps_cells.
  - intros i pph ppr v Hi Hp Hq. simpl in Hi, Hp, Hq.
    destruct Hi as [<- | [<- | [<- | [<- | []]]]], Hp as [<- | [<- | []]],
      Hq as [<- | [<- | []]];
      intros E; vm_compute in E; injection E as <-; unfold uint256; lia.
  - split; [reflexivity | unfold uint256; lia].
  - split; [reflexivity | unfold uint256; lia].
  - vm_compute. reflexivity.
Defined.

(** The default run of the filler, then the loader: every table holds the
    quotient of 500000, the 0.5 of the dicts of the script. *)
Example fill_then_load_neutral :
  fst (run (load_priors_and_cpts_from_chain (chain:=controller_chain)) filled) =
    Ok (priors_of 500000 500000, cpts_of (fun _ _ _ => 500000)).
Proof. vm_compute. reflexivity. Qed.
